(** * BookFinder: a shallow embedding of the two search components

    The repository holds two React components, both called [BookFinder]:
    - [src/src/findBook/findBook.js], the extended component (field selector,
      filters, sort order, pagination, saved list in [localStorage]);
    - [src/unnamed/part_000], the basic component (query, fetch, render).

    Conventions of the embedding.
    - A JavaScript string is a [string] holding its UTF-8 bytes.
    - Integers of the page ([page], [total], publication years) are [Z].
    - A handler is a computation in the monad [Eff]: it threads the component
      state and the browser ([localStorage], the network) and may throw.
    - [Module Events] runs the handlers of the extended component under the
      events of a session (edits, clicks, the debounce timer), with the
      effects React runs after each of them.
    - The browser's functions ([trim], [URLSearchParams], [Array.prototype.sort],
      [localStorage], [fetch]) are modelled in [Module Platform] after their
      standards; [JSON.stringify] and [JSON.parse] are an interface. *)

From Stdlib Require Import ZArith List String Ascii Lia.
From Stdlib Require Import Sorting.Sorted Sorting.Permutation.
From stdpp Require Import base gmap strings list pretty.

Local Open Scope string_scope.
Local Open Scope list_scope.
Local Open Scope Z_scope.

(* ================================================================== *)
(** * The platform *)
(* ================================================================== *)

Module Platform.

(** ** Strings *)

Definition bytes (codes : list nat) : list ascii := map ascii_of_nat codes.

(** The UTF-8 encodings of the code points ECMAScript counts as WhiteSpace or
    LineTerminator (what [String.prototype.trim] strips): TAB, LF, VT, FF, CR,
    SP, U+00A0, U+1680, U+2000..U+200A, U+2028, U+2029, U+202F, U+205F,
    U+3000, U+FEFF. *)
Definition white_space : list (list ascii) :=
  map bytes
    [ [9]; [10]; [11]; [12]; [13]; [32]; [194; 160]; [225; 154; 128];
      [226; 128; 128]; [226; 128; 129]; [226; 128; 130]; [226; 128; 131];
      [226; 128; 132]; [226; 128; 133]; [226; 128; 134]; [226; 128; 135];
      [226; 128; 136]; [226; 128; 137]; [226; 128; 138];
      [226; 128; 168]; [226; 128; 169]; [226; 128; 175]; [226; 129; 159];
      [227; 128; 128]; [239; 187; 191] ]%nat.

Fixpoint strip_prefix (w l : list ascii) : option (list ascii) :=
  match w, l with
  | [], _ => Some l
  | a :: w', b :: l' => if Ascii.eqb a b then strip_prefix w' l' else None
  | _ :: _, [] => None
  end.

(** Removes one leading character out of [table], when there is one. *)
Fixpoint strip_one (table : list (list ascii)) (l : list ascii) : option (list ascii) :=
  match table with
  | [] => None
  | w :: rest =>
      match strip_prefix w l with
      | Some l' => Some l'
      | None => strip_one rest l
      end
  end.

Fixpoint strip_all (fuel : nat) (table : list (list ascii)) (l : list ascii) : list ascii :=
  match fuel with
  | O => l
  | S fuel' =>
      match strip_one table l with
      | Some l' => strip_all fuel' table l'
      | None => l
      end
  end.

Definition trimStart_bytes (l : list ascii) : list ascii :=
  strip_all (length l) white_space l.

Definition trimEnd_bytes (l : list ascii) : list ascii :=
  rev (strip_all (length l) (map (@rev ascii) white_space) (rev l)).

(** [String.prototype.trim]. *)
Definition trim (s : string) : string :=
  string_of_list_ascii (trimEnd_bytes (trimStart_bytes (list_ascii_of_string s))).

(** A string is falsy exactly when it is empty. *)
Definition truthy_string (s : string) : bool :=
  match s with EmptyString => false | String _ _ => true end.

(** [String(n)] for an integer [n]: its decimal numeral. *)
Definition String_of_number (n : Z) : string := pretty n.

(** ** Percent encoding *)

Definition is_alnum (c : ascii) : bool :=
  let n := nat_of_ascii c in
  ((48 <=? n) && (n <=? 57) || (65 <=? n) && (n <=? 90) || (97 <=? n) && (n <=? 122))%nat.

Definition hex_digit (n : nat) : ascii :=
  if (n <? 10)%nat then ascii_of_nat (48 + n) else ascii_of_nat (55 + n).

Definition percent (c : ascii) : string :=
  let n := nat_of_ascii c in
  String "%" (String (hex_digit (n / 16)) (String (hex_digit (n mod 16)) EmptyString)).

Fixpoint encode_with (enc : ascii → string) (s : string) : string :=
  match s with
  | EmptyString => EmptyString
  | String c s' => enc c +:+ encode_with enc s'
  end.

(** The application/x-www-form-urlencoded byte serializer, which
    [URLSearchParams.prototype.toString] applies to names and values. *)
Definition form_byte (c : ascii) : string :=
  if Ascii.eqb c " " then "+"
  else if is_alnum c || existsb (Ascii.eqb c) ["*"; "-"; "."; "_"]%char
       then String c EmptyString
       else percent c.

Definition form_encode : string → string := encode_with form_byte.

(** [encodeURIComponent]. *)
Definition component_byte (c : ascii) : string :=
  if is_alnum c || existsb (Ascii.eqb c) ["-"; "_"; "."; "!"; "~"; "*"; "'"; "("; ")"]%char
  then String c EmptyString
  else percent c.

Definition encodeURIComponent : string → string := encode_with component_byte.

(** ** URLSearchParams: an ordered list of name-value pairs *)

Definition URLSearchParams := list (string * string).

Definition params_delete (name : string) (ps : URLSearchParams) : URLSearchParams :=
  List.filter (λ p, negb (String.eqb (fst p) name)) ps.

(** [set]: the first pair of that name takes the value and the others go;
    without one the pair is appended. *)
Fixpoint params_set (name value : string) (ps : URLSearchParams) : URLSearchParams :=
  match ps with
  | [] => [(name, value)]
  | (n, v) :: rest =>
      if String.eqb n name then (name, value) :: params_delete name rest
      else (n, v) :: params_set name value rest
  end.

(** [get]: the value of the first pair of that name. *)
Fixpoint params_get (name : string) (ps : URLSearchParams) : option string :=
  match ps with
  | [] => None
  | (n, v) :: rest => if String.eqb n name then Some v else params_get name rest
  end.

Definition params_component (p : string * string) : string :=
  form_encode (fst p) +:+ "=" +:+ form_encode (snd p).

Definition params_toString (ps : URLSearchParams) : string :=
  String.concat "&" (map params_component ps).

(** ** Array.prototype.sort with a comparator

    The standard fixes the result for a consistent comparator: the elements in
    comparator order, equal ones in their original order (the sort is stable).
    Insertion from the right computes it. *)
Section Sort.
Context {A : Type} (cmp : A → A → Z).

Fixpoint sort_insert (x : A) (l : list A) : list A :=
  match l with
  | [] => [x]
  | y :: l' => if cmp x y <=? 0 then x :: y :: l' else y :: sort_insert x l'
  end.

Definition Array_sort (l : list A) : list A := foldr sort_insert [] l.
End Sort.

(** [Math.ceil(a / b)] for integers [a] and [b > 0]: the quotient rounded
    towards plus infinity. *)
Definition Math_ceil_div (a b : Z) : Z := - ((- a) / b).

(** ** localStorage

    A key-value store of strings with a quota: [setItem] throws
    (QuotaExceededError) when the store would grow past it. *)
Record Storage := { items : gmap string string; quota : nat }.

Definition used (m : gmap string string) : nat :=
  map_fold (λ k v acc, String.length k + String.length v + acc)%nat 0%nat m.

Definition getItem (k : string) (s : Storage) : option string := items s !! k.

Definition setItem (k v : string) (s : Storage) : option Storage :=
  let m := <[k := v]> (items s) in
  if (used m <=? quota s)%nat then Some {| items := m; quota := quota s |} else None.

(** ** The network

    [fetch] either rejects or resolves to a response; [res.json()] rejects
    when the body is not JSON. *)
Section Network.
Context {Body : Type}.

Record Response := { ok : bool; status : Z; json : option Body }.

Inductive fetch_outcome :=
| Rejects
| Resolves (res : Response).
End Network.
Arguments Response : clear implicits.
Arguments fetch_outcome : clear implicits.

(** The browser as a handler sees it: the store, the answers the network
    will give to the coming calls of [fetch] (in order; none left means the
    network is down), and the URLs requested so far. *)
Record World (Body : Type) := {
  storage : Storage;
  network : list (fetch_outcome Body);
  requests : list string
}.
Arguments storage {Body}.
Arguments network {Body}.
Arguments requests {Body}.

End Platform.

(* ================================================================== *)
(** * Result records and handlers *)
(* ================================================================== *)

Module Model.
Import Platform.

(** A result record (a "doc" of the search API), with the fields the
    components compute with. A field the record lacks is [None]. *)
Record book := {
  key : string;
  title : option string;
  first_publish_year : option Z;
  cover_i : option Z
}.

(** The JSON body of a search response. [docs] is [None] when the body has no
    array under that name. *)
Record SearchData := {
  docs : option (list book);
  numFound : option Z;
  num_found : option Z
}.

(** [x || 0] on a number that may be missing: a missing number and 0 are
    both falsy. *)
Definition or_zero (x : option Z) : Z :=
  match x with
  | Some n => n
  | None => 0
  end.

(** [x || y] on numbers that may be missing. *)
Definition or_else (x : option Z) (y : option Z) : option Z :=
  match x with
  | Some n => if n =? 0 then y else Some n
  | None => y
  end.

Inductive exn :=
| Error (message : string)
| TypeError (message : string)
| SyntaxError (message : string).

Inductive completion (A : Type) :=
| Normal (a : A)
| Throw (e : exn).
Arguments Normal {A}.
Arguments Throw {A}.

(** A handler over the component state [St] and the browser. Updates made
    before a throw stay made. *)
Definition Eff (St A : Type) : Type :=
  St * World SearchData → completion A * (St * World SearchData).

Section Eff.
Context {St : Type}.

#[export] Instance Eff_ret : MRet (Eff St) := λ A a σ, (Normal a, σ).

#[export] Instance Eff_bind : MBind (Eff St) := λ A B k m σ,
  match m σ with
  | (Normal a, σ') => k a σ'
  | (Throw e, σ') => (Throw e, σ')
  end.

Definition throw {A} (e : exn) : Eff St A := λ σ, (Throw e, σ).

(** [try { body } catch (e) { handler e }] *)
Definition try_catch {A} (body : Eff St A) (handler : exn → Eff St A) : Eff St A := λ σ,
  match body σ with
  | (Normal a, σ') => (Normal a, σ')
  | (Throw e, σ') => handler e σ'
  end.

(** [try { body } finally { final }] *)
Definition try_finally {A} (body : Eff St A) (final : Eff St unit) : Eff St A := λ σ,
  let (r, σ') := body σ in
  match final σ' with
  | (Normal _, σ'') => (r, σ'')
  | (Throw e, σ'') => (Throw e, σ'')
  end.

(** The values of the state variables in the current render. *)
Definition get_state : Eff St St := λ σ, (Normal (fst σ), σ).

Definition set_state (f : St → St) : Eff St unit := λ σ, (Normal tt, (f (fst σ), snd σ)).

(** [fetch(url)]: logs the request and takes the network's next answer. *)
Definition fetch (url : string) : Eff St (Response SearchData) := λ σ,
  let w := snd σ in
  let logged := requests w ++ [url] in
  match network w with
  | Resolves res :: rest =>
      (Normal res, (fst σ, {| storage := storage w; network := rest; requests := logged |}))
  | Rejects :: rest =>
      (Throw (TypeError "Failed to fetch"),
       (fst σ, {| storage := storage w; network := rest; requests := logged |}))
  | [] =>
      (Throw (TypeError "Failed to fetch"),
       (fst σ, {| storage := storage w; network := []; requests := logged |}))
  end.

(** [res.json()] *)
Definition res_json (res : Response SearchData) : Eff St SearchData :=
  match json res with
  | Some data => mret data
  | None => throw (SyntaxError "Unexpected token")
  end.

Definition when (b : bool) (m : Eff St unit) : Eff St unit :=
  if b then m else mret tt.

(** [localStorage.getItem(key)] *)
Definition localStorage_getItem (key : string) : Eff St (option string) := λ σ,
  (Normal (getItem key (storage (snd σ))), σ).

(** [localStorage.setItem(key, value)] *)
Definition localStorage_setItem (key value : string) : Eff St unit := λ σ,
  let w := snd σ in
  match setItem key value (storage w) with
  | Some s' =>
      (Normal tt, (fst σ, {| storage := s'; network := network w; requests := requests w |}))
  | None => (Throw (Error "QuotaExceededError"), σ)
  end.

End Eff.

(** [JSON.stringify] and [JSON.parse] at the type [V] of a stored value.
    [JSON_parse] is [None] where [JSON.parse] throws, as it does on the
    empty text. *)
Class JSON (V : Type) := {
  JSON_stringify : V → string;
  JSON_parse : string → option V;
  JSON_parse_empty : JSON_parse "" = None
}.

(** ** The hook [useLocalStorage] (findBook.js, lines 8-23) *)
Section useLocalStorage.
Context {St V : Type} `{JSON V} (key : string) (initialValue : V).

(** The initializer of the state variable (lines 9-16). *)
Definition useLocalStorage_init : Eff St V :=
  try_catch
    (raw ← localStorage_getItem key;
     match raw with
     | Some text =>
         if truthy_string text
         then match JSON_parse text with
              | Some v => mret v
              | None => throw (SyntaxError "JSON.parse")
              end
         else mret initialValue
     | None => mret initialValue
     end)
    (λ _, mret initialValue).

(** The effect, run after every render in which [key] or [value] changed
    (lines 17-21). *)
Definition useLocalStorage_effect (value : V) : Eff St unit :=
  try_catch
    (localStorage_setItem key (JSON_stringify value))
    (λ _, mret tt).

End useLocalStorage.

End Model.

(* ================================================================== *)
(** * The extended component (src/src/findBook/findBook.js) *)
(* ================================================================== *)

Module BookFinder.
Import Platform Model.

(** The state variables of the component (lines 27-42). *)
Record State := {
  query : string;
  field : string;
  ebookOnly : bool;
  lang : string;
  sort : string;
  books : list book;
  total : Z;
  page : Z;
  loading : bool;
  error : string;
  selected : option book;
  saved : list book
}.

Definition setBooks (v : list book) : Eff State unit :=
  set_state (λ s, {| query := query s; field := field s; ebookOnly := ebookOnly s;
                     lang := lang s; sort := sort s; books := v; total := total s;
                     page := page s; loading := loading s; error := error s;
                     selected := selected s; saved := saved s |}).

Definition setTotal (v : Z) : Eff State unit :=
  set_state (λ s, {| query := query s; field := field s; ebookOnly := ebookOnly s;
                     lang := lang s; sort := sort s; books := books s; total := v;
                     page := page s; loading := loading s; error := error s;
                     selected := selected s; saved := saved s |}).

Definition setPage (f : Z → Z) : Eff State unit :=
  set_state (λ s, {| query := query s; field := field s; ebookOnly := ebookOnly s;
                     lang := lang s; sort := sort s; books := books s; total := total s;
                     page := f (page s); loading := loading s; error := error s;
                     selected := selected s; saved := saved s |}).

Definition setLoading (v : bool) : Eff State unit :=
  set_state (λ s, {| query := query s; field := field s; ebookOnly := ebookOnly s;
                     lang := lang s; sort := sort s; books := books s; total := total s;
                     page := page s; loading := v; error := error s;
                     selected := selected s; saved := saved s |}).

Definition setError (v : string) : Eff State unit :=
  set_state (λ s, {| query := query s; field := field s; ebookOnly := ebookOnly s;
                     lang := lang s; sort := sort s; books := books s; total := total s;
                     page := page s; loading := loading s; error := v;
                     selected := selected s; saved := saved s |}).

Definition with_saved (v : list book) (s : State) : State :=
  {| query := query s; field := field s; ebookOnly := ebookOnly s;
     lang := lang s; sort := sort s; books := books s; total := total s;
     page := page s; loading := loading s; error := error s;
     selected := selected s; saved := v |}.

Definition pageSize : Z := 20.

(** ** The query builder (lines 47-86) *)

Definition endpoint : string := "https://openlibrary.org/search.json".

Definition fields : list string :=
  [ "key"; "title"; "author_name"; "cover_i"; "first_publish_year";
    "ebook_access"; "has_fulltext"; "language"; "edition_count"; "subject" ].

(** The [params] object when [buildUrl] serializes it. *)
Definition buildParams (st : State) : URLSearchParams :=
  let params := [] in
  let params := params_set "page" (String_of_number (page st)) params in
  let params :=
    if negb (truthy_string (trim (query st))) then params_set "q" "" params
    else if String.eqb (field st) "title" then params_set "title" (trim (query st)) params
    else if String.eqb (field st) "author" then params_set "author" (trim (query st)) params
    else if String.eqb (field st) "subject" then params_set "subject" (trim (query st)) params
    else if String.eqb (field st) "isbn" then params_set "isbn" (trim (query st)) params
    else params_set "q" (trim (query st)) params in
  let params := if ebookOnly st then params_set "has_fulltext" "true" params else params in
  let params := if truthy_string (lang st) then params_set "language" (lang st) params else params in
  params_set "fields" (String.concat "," fields) params.

Definition buildUrl (st : State) : string :=
  endpoint +:+ "?" +:+ params_toString (buildParams st).

(** ** The fetch and render cycle (lines 89-115) *)

Definition by_year_asc (a b : book) : Z :=
  or_zero (first_publish_year a) - or_zero (first_publish_year b).

Definition by_year_desc (a b : book) : Z :=
  or_zero (first_publish_year b) - or_zero (first_publish_year a).

Definition fetchBooks : Eff State unit :=
  setLoading true ;;
  setError "" ;;
  try_finally
    (try_catch
       (st ← get_state;
        let url := buildUrl st in
        res ← fetch url;
        when (negb (ok res)) (throw (Error ("HTTP " +:+ String_of_number (status res)))) ;;
        data ← res_json res;
        let docs := match docs data with Some ds => ds | None => [] end in
        let docs :=
          if String.eqb (sort st) "year_asc" then Array_sort by_year_asc docs
          else if String.eqb (sort st) "year_desc" then Array_sort by_year_desc docs
          else docs in
        setBooks docs ;;
        setTotal (or_zero (or_else (numFound data) (or_else (num_found data) (Some 0)))) ;;
        when (Nat.eqb (length docs) 0) (setError "No books found."))
       (λ e,
        setError "Network error. Please try again." ;;
        setBooks [] ;;
        setTotal 0))
    (setLoading false).

(** ** The debounced search (lines 118-132): what the timer runs when it fires *)
Definition debounced : Eff State unit :=
  st ← get_state;
  if negb (truthy_string (trim (query st))) then
    setBooks [] ;;
    setTotal 0 ;;
    setError "" ;;
    setLoading false
  else fetchBooks.

(** The effect of lines 135-138. *)
Definition resetPage : Eff State unit := setPage (λ _, 1).

(** ** Pagination (lines 140, 241-254) *)

Definition totalPages (st : State) : Z :=
  Z.max 1 (Math_ceil_div (total st) pageSize).

Definition prevPage (p : Z) : Z := Z.max 1 (p - 1).

Definition nextPage (totalPages p : Z) : Z := Z.min totalPages (p + 1).

Definition onPrev : Eff State unit := setPage prevPage.

Definition onNext : Eff State unit :=
  st ← get_state; setPage (nextPage (totalPages st)).

(** ** The saved list (lines 42, 142-151) *)

Definition storageKey : string := "bookfinder.saved".

(** The updater [toggleSave] hands to [setSaved] (lines 144-148). *)
Definition toggle (book0 : book) (prev : list book) : list book :=
  let id := key book0 in
  let exists_ := List.find (λ b, String.eqb (key b) id) prev in
  match exists_ with
  | Some _ => List.filter (λ b, negb (String.eqb (key b) id)) prev
  | None => prev ++ [book0]
  end.

Definition isSaved (st : State) (book0 : book) : bool :=
  existsb (λ b, String.eqb (key b) (key book0)) (saved st).

Section Saved.
Context `{codec : JSON (list book)}.

(** [setSaved] is the setter [useLocalStorage] returns: the state variable
    takes the updater's result, and since the value changed React runs the
    hook's effect after the re-render. *)
Definition setSaved (updater : list book → list book) : Eff State unit :=
  set_state (λ s, with_saved (updater (saved s)) s) ;;
  st ← get_state;
  useLocalStorage_effect storageKey (saved st).

Definition toggleSave (book0 : book) : Eff State unit :=
  setSaved (toggle book0).

(** The first render: every state variable takes its initial value, [saved]
    from [useLocalStorage]; then the hook's effect runs. *)
Definition mount : Eff State unit :=
  saved0 ← useLocalStorage_init storageKey [];
  set_state (λ _, {| query := ""; field := "all"; ebookOnly := false; lang := "";
                     sort := "relevance"; books := []; total := 0; page := 1;
                     loading := false; error := ""; selected := None;
                     saved := saved0 |}) ;;
  useLocalStorage_effect storageKey saved0.

End Saved.

End BookFinder.

(* ================================================================== *)
(** * The basic component (src/unnamed/part_000) *)
(* ================================================================== *)

Module BasicFinder.
Import Platform Model.

(** The state variables of the component (lines 5-8). *)
Record State := {
  query : string;
  books : list book;
  loading : bool;
  error : string
}.

Definition setBooks (v : list book) : Eff State unit :=
  set_state (λ s, {| query := query s; books := v; loading := loading s; error := error s |}).

Definition setLoading (v : bool) : Eff State unit :=
  set_state (λ s, {| query := query s; books := books s; loading := v; error := error s |}).

Definition setError (v : string) : Eff State unit :=
  set_state (λ s, {| query := query s; books := books s; loading := loading s; error := v |}).

(** [searchBooks] (lines 11-27). Reading [data.docs.length] throws a
    TypeError when the body has no [docs]. *)
Definition searchBooks : Eff State unit :=
  st ← get_state;
  if negb (truthy_string (trim (query st))) then mret tt
  else
    setLoading true ;;
    setError "" ;;
    try_finally
      (try_catch
         (res ← fetch ("https://openlibrary.org/search.json?q=" +:+ encodeURIComponent (query st));
          data ← res_json res;
          found ← match docs data with
                  | Some ds => mret ds
                  | None => throw (TypeError "data.docs is undefined")
                  end;
          when (Nat.eqb (length found) 0) (setError "No books found.") ;;
          setBooks found)
         (λ err, setError "Network error. Please try again."))
      (setLoading false).

End BasicFinder.

(* ================================================================== *)
(** * The basic component on any query text *)
(* ================================================================== *)

(** [BasicFinder.searchBooks] takes the query to be well-formed text, on
    which [encodeURIComponent] is total. A JavaScript string can also hold an
    unpaired surrogate; as bytes it is then the generalized UTF-8 of its code
    points, the surrogate being the byte 237 followed by a byte from 160 on.
    On such a string [encodeURIComponent] throws URIError, and part_000 line
    16 calls it inside the [try], before [fetch]. *)
Module BasicFinderFull.
Import Platform Model BasicFinder.

(** The basic component with the exception of [encodeURIComponent]:
    [encodeURIComponent] throws URIError on a string holding a surrogate
    code unit that is not part of a pair, and part_000 calls it inside the
    [try], before [fetch] (line 16).

    A surrogate pair is one code point above U+FFFF, four bytes in UTF-8;
    a surrogate without its pair has no UTF-8 encoding, and is held here as
    the three bytes of the generalized encoding of U+D800..U+DFFF: 237 (ED),
    then a byte from 160 (A0) on.  No other code point has these two bytes:
    after ED, UTF-8 allows 80..9F only. *)
Fixpoint has_lone_surrogate (s : string) : bool :=
  match s with
  | EmptyString => false
  | String a rest =>
      match rest with
      | String b _ =>
          (Nat.eqb (nat_of_ascii a) 237 && (160 <=? nat_of_ascii b)%nat)
          || has_lone_surrogate rest
      | EmptyString => false
      end
  end.

(** [encodeURIComponent], with its exception. *)
Definition encodeURIComponent (s : string) : Eff State string :=
  if has_lone_surrogate s then throw (Error "URIError: URI malformed")
  else mret (Platform.encodeURIComponent s).

(** [searchBooks] (part_000, lines 11-27). *)
Definition searchBooks : Eff State unit :=
  st ← get_state;
  if negb (truthy_string (trim (query st))) then mret tt
  else
    setLoading true ;;
    setError "" ;;
    try_finally
      (try_catch
         (q ← encodeURIComponent (query st);
          res ← fetch ("https://openlibrary.org/search.json?q=" +:+ q);
          data ← res_json res;
          found ← match docs data with
                  | Some ds => mret ds
                  | None => throw (TypeError "data.docs is undefined")
                  end;
          when (Nat.eqb (length found) 0) (setError "No books found.") ;;
          setBooks found)
         (λ err, setError "Network error. Please try again."))
      (setLoading false).

End BasicFinderFull.

(* ================================================================== *)
(** * Events of the extended component: controls, timer, effects *)
(* ================================================================== *)

Module Events.
Import Platform Model BookFinder.

(** The setters of the search controls (findBook.js, lines 27-31), called by
    the [onChange] handlers of lines 168, 184, 202, 210 and 224. *)
Definition setQuery (v : string) : Eff State unit :=
  set_state (λ s, {| query := v; field := field s; ebookOnly := ebookOnly s;
                     lang := lang s; sort := sort s; books := books s; total := total s;
                     page := page s; loading := loading s; error := error s;
                     selected := selected s; saved := saved s |}).

Definition setField (v : string) : Eff State unit :=
  set_state (λ s, {| query := query s; field := v; ebookOnly := ebookOnly s;
                     lang := lang s; sort := sort s; books := books s; total := total s;
                     page := page s; loading := loading s; error := error s;
                     selected := selected s; saved := saved s |}).

Definition setEbookOnly (v : bool) : Eff State unit :=
  set_state (λ s, {| query := query s; field := field s; ebookOnly := v;
                     lang := lang s; sort := sort s; books := books s; total := total s;
                     page := page s; loading := loading s; error := error s;
                     selected := selected s; saved := saved s |}).

Definition setLang (v : string) : Eff State unit :=
  set_state (λ s, {| query := query s; field := field s; ebookOnly := ebookOnly s;
                     lang := v; sort := sort s; books := books s; total := total s;
                     page := page s; loading := loading s; error := error s;
                     selected := selected s; saved := saved s |}).

Definition setSort (v : string) : Eff State unit :=
  set_state (λ s, {| query := query s; field := field s; ebookOnly := ebookOnly s;
                     lang := lang s; sort := v; books := books s; total := total s;
                     page := page s; loading := loading s; error := error s;
                     selected := selected s; saved := saved s |}).

(** [fetchBooks] as the render [r] defines it (lines 89-115): the function
    reads the controls of the render that created it, and its setters act on
    the current state. *)
Definition fetchBooks_of (r : State) : Eff State unit :=
  setLoading true ;;
  setError "" ;;
  try_finally
    (try_catch
       (let url := buildUrl r in
        res ← fetch url;
        when (negb (ok res)) (throw (Error ("HTTP " +:+ String_of_number (status res)))) ;;
        data ← res_json res;
        let docs := match docs data with Some ds => ds | None => [] end in
        let docs :=
          if String.eqb (sort r) "year_asc" then Array_sort by_year_asc docs
          else if String.eqb (sort r) "year_desc" then Array_sort by_year_desc docs
          else docs in
        setBooks docs ;;
        setTotal (or_zero (or_else (numFound data) (or_else (num_found data) (Some 0)))) ;;
        when (Nat.eqb (length docs) 0) (setError "No books found."))
       (λ e,
        setError "Network error. Please try again." ;;
        setBooks [] ;;
        setTotal 0))
    (setLoading false).

(** The callback the render [r] hands to [setTimeout] (lines 119-129). *)
Definition debounced_of (r : State) : Eff State unit :=
  if negb (truthy_string (trim (query r))) then
    setBooks [] ;;
    setTotal 0 ;;
    setError "" ;;
    setLoading false
  else fetchBooks_of r.

(** The dependencies of the two effects (lines 132 and 138). *)
Definition search_deps (s : State) : string * string * bool * string * string * Z :=
  (query s, field s, ebookOnly s, lang s, sort s, page s).

Definition reset_deps (s : State) : string * string * bool * string * string :=
  (query s, field s, ebookOnly s, lang s, sort s).

(** The component between two events: the state of its last render, the
    browser, and the render whose debounce timer is pending, if one is. *)
Record App := {
  shown : State;
  browser : World SearchData;
  timer : option State
}.

(** What React does once a handler has left the state [after], the last
    render having shown [before]: it renders, and runs the effects whose
    dependencies changed. The debounce effect clears the pending timer and
    sets one for this render; the reset effect sets the page to 1, which
    gives a second render, after which only the debounce effect can have
    changed dependencies. *)
Definition commit (before after : State) (w : World SearchData) (pending : option State) : App :=
  let pending1 :=
    if decide (search_deps before = search_deps after) then pending else Some after in
  if decide (reset_deps before = reset_deps after)
  then {| shown := after; browser := w; timer := pending1 |}
  else
    let '(_, (after2, w2)) := resetPage (after, w) in
    let pending2 :=
      if decide (search_deps after = search_deps after2) then pending1 else Some after2 in
    {| shown := after2; browser := w2; timer := pending2 |}.

(** What the user and the clock can do. A request is answered before the
    next event. *)
Inductive event :=
| TypeQuery (v : string)
| PickField (v : string)
| CheckEbookOnly (v : bool)
| PickLang (v : string)
| PickSort (v : string)
| ClickPrev
| ClickNext
| ClickSearch
| PressEnter
| TimerFires.

(** The handler of an event. The Search button is [disabled={loading}]
    (line 187): a click on it runs [fetchBooks] only when the render shown has
    the loading flag false. The Enter key (line 185) runs it whatever the flag.
    The timer runs the callback of the render that set it. *)
Definition handler (e : event) (pending : option State) : Eff State unit :=
  match e with
  | TypeQuery v => setQuery v
  | PickField v => setField v
  | CheckEbookOnly v => setEbookOnly v
  | PickLang v => setLang v
  | PickSort v => setSort v
  | ClickPrev => onPrev
  | ClickNext => onNext
  | ClickSearch => st ← get_state; if loading st then mret tt else fetchBooks
  | PressEnter => fetchBooks
  | TimerFires =>
      match pending with
      | Some r => debounced_of r
      | None => mret tt
      end
  end.

Definition step (e : event) (app : App) : App :=
  let '(_, (after, w)) := handler e (timer app) (shown app, browser app) in
  commit (shown app) after w
    (match e with TimerFires => None | _ => timer app end).

Definition steps (es : list event) (app : App) : App :=
  foldl (λ a e, step e a) app es.

(** An event that edits a control or turns the page. *)
Definition edits (e : event) : Prop :=
  match e with
  | ClickSearch | PressEnter | TimerFires => False
  | _ => True
  end.


(** The pending timer, when there is one, was set by a render with the
    dependencies of the last render. *)
Definition timer_current (app : App) : Prop :=
  ∀ r, timer app = Some r → search_deps r = search_deps (shown app).

End Events.

(* ================================================================== *)
(** * A JSON codec for lists of result records

    An instance of the interface [JSON], used to run the hook on concrete
    stores. It covers arrays of flat objects whose members are strings
    without escapes or integers. *)
(* ================================================================== *)

Module Codec.
Import Platform Model.

Definition dquote : ascii := ascii_of_nat 34.

Definition quoted (s : string) : string := String dquote (s +:+ String dquote EmptyString).

Definition string_member (name : string) (v : option string) : list string :=
  match v with
  | Some s => [quoted name +:+ ":" +:+ quoted s]
  | None => []
  end.

Definition number_member (name : string) (v : option Z) : list string :=
  match v with
  | Some n => [quoted name +:+ ":" +:+ String_of_number n]
  | None => []
  end.

Definition stringify_book (b : book) : string :=
  "{" +:+ String.concat ","
            (string_member "key" (Some (key b)) ++ string_member "title" (title b)
             ++ number_member "first_publish_year" (first_publish_year b)
             ++ number_member "cover_i" (cover_i b))
      +:+ "}".

Definition stringify_books (l : list book) : string :=
  "[" +:+ String.concat "," (map stringify_book l) +:+ "]".

Inductive token :=
| LBracket | RBracket | LBrace | RBrace | Colon | Comma
| Str (s : string)
| Num (n : Z).

(** Reads a string literal after its opening quote. *)
Fixpoint read_string (l : list ascii) : option (string * list ascii) :=
  match l with
  | [] => None
  | c :: l' =>
      if Ascii.eqb c dquote then Some (EmptyString, l')
      else if Ascii.eqb c "\" then None
      else '(s, rest) ← read_string l'; Some (String c s, rest)
  end.

Definition digit (c : ascii) : option Z :=
  let n := nat_of_ascii c in
  if ((48 <=? n) && (n <=? 57))%nat then Some (Z.of_nat n - 48) else None.

Fixpoint read_digits (acc : Z) (l : list ascii) : Z * list ascii :=
  match l with
  | [] => (acc, [])
  | c :: l' =>
      match digit c with
      | Some d => read_digits (10 * acc + d) l'
      | None => (acc, l)
      end
  end.

Definition is_space (c : ascii) : bool :=
  existsb (Nat.eqb (nat_of_ascii c)) [9; 10; 13; 32]%nat.

Fixpoint lex (fuel : nat) (l : list ascii) : option (list token) :=
  match fuel, l with
  | _, [] => Some []
  | O, _ :: _ => None
  | S fuel', c :: l' =>
      if is_space c then lex fuel' l'
      else if Ascii.eqb c "[" then cons LBracket <$> lex fuel' l'
      else if Ascii.eqb c "]" then cons RBracket <$> lex fuel' l'
      else if Ascii.eqb c "{" then cons LBrace <$> lex fuel' l'
      else if Ascii.eqb c "}" then cons RBrace <$> lex fuel' l'
      else if Ascii.eqb c ":" then cons Colon <$> lex fuel' l'
      else if Ascii.eqb c "," then cons Comma <$> lex fuel' l'
      else if Ascii.eqb c dquote then
        '(s, rest) ← read_string l'; cons (Str s) <$> lex fuel' rest
      else if Ascii.eqb c "-" then
        match l' with
        | d :: _ =>
            if bool_decide (is_Some (digit d))
            then let (n, rest) := read_digits 0 l' in cons (Num (- n)) <$> lex fuel' rest
            else None
        | [] => None
        end
      else if bool_decide (is_Some (digit c))
      then let (n, rest) := read_digits 0 l in cons (Num n) <$> lex fuel' rest
      else None
  end.

Definition is_value (t : token) : bool :=
  match t with
  | Str _ | Num _ => true
  | _ => false
  end.

(** The members of an object after its opening brace, up to its closing one. *)
Fixpoint parse_members (ts : list token) : option (list (string * token) * list token) :=
  match ts with
  | Str name :: Colon :: v :: rest =>
      if is_value v then
        match rest with
        | Comma :: rest' => '(ms, r) ← parse_members rest'; Some ((name, v) :: ms, r)
        | RBrace :: rest' => Some ([(name, v)], rest')
        | _ => None
        end
      else None
  | _ => None
  end.

Definition parse_object (ts : list token) : option (list (string * token) * list token) :=
  match ts with
  | LBrace :: RBrace :: rest => Some ([], rest)
  | LBrace :: rest => parse_members rest
  | _ => None
  end.

(** The elements of an array after its opening bracket, up to its closing one. *)
Fixpoint parse_elements (fuel : nat) (ts : list token)
  : option (list (list (string * token)) * list token) :=
  match fuel with
  | O => None
  | S fuel' =>
      '(o, rest) ← parse_object ts;
      match rest with
      | Comma :: rest' => '(os, r) ← parse_elements fuel' rest'; Some (o :: os, r)
      | RBracket :: rest' => Some ([o], rest')
      | _ => None
      end
  end.

Fixpoint member (name : string) (ms : list (string * token)) : option token :=
  match ms with
  | [] => None
  | (n, v) :: rest =>
      match member name rest with
      | Some later => Some later
      | None => if String.eqb n name then Some v else None
      end
  end.

Definition string_of (t : option token) : option string :=
  match t with Some (Str s) => Some s | _ => None end.

Definition number_of (t : option token) : option Z :=
  match t with Some (Num n) => Some n | _ => None end.

Definition book_of (ms : list (string * token)) : option book :=
  k ← string_of (member "key" ms);
  Some {| key := k;
          title := string_of (member "title" ms);
          first_publish_year := number_of (member "first_publish_year" ms);
          cover_i := number_of (member "cover_i" ms) |}.

Definition parse_books (text : string) : option (list book) :=
  let l := list_ascii_of_string text in
  ts ← lex (S (length l)) l;
  match ts with
  | [LBracket; RBracket] => Some []
  | LBracket :: rest =>
      '(objects, after) ← parse_elements (length rest) rest;
      match after with
      | [] => mapM book_of objects
      | _ :: _ => None
      end
  | _ => None
  end.

Definition books_json : JSON (list book) :=
  {| JSON_stringify := stringify_books; JSON_parse := parse_books;
     JSON_parse_empty := eq_refl |}.

End Codec.

(* ================================================================== *)
(** * Notions the statements use *)
(* ================================================================== *)

Module Notions.
Import Platform Model BookFinder.

(** ** The saved list *)

(** The entries of [l] other than those with the key [id], in order. *)
Definition others (id : string) (l : list book) : list book :=
  filter (λ e, key e ≠ id) l.

Section Store.
Context `{codec : JSON (list book)}.

(** The store after the hook's effect has tried to write [value]. *)
Definition written (value : list book) (w : World SearchData) : World SearchData :=
  match setItem storageKey (JSON_stringify value) (storage w) with
  | Some s' => {| storage := s'; network := network w; requests := requests w |}
  | None => w
  end.

(** What the hook's initializer returns on the store [s]. *)
Definition hydrated (s : Storage) : list book :=
  match getItem storageKey s with
  | Some text => if truthy_string text then default [] (JSON_parse text) else []
  | None => []
  end.

End Store.

(** ** The query builder *)

(** The parameter the field control selects. *)
Definition search_param (field : string) : string :=
  if String.eqb field "title" then "title"
  else if String.eqb field "author" then "author"
  else if String.eqb field "subject" then "subject"
  else if String.eqb field "isbn" then "isbn"
  else "q".


(** The state with the five controls set as given. *)
Definition state (q f : string) (ebook : bool) (l : string) (p : Z) : State :=
  {| query := q; field := f; ebookOnly := ebook; lang := l; sort := "relevance";
     books := []; total := 0; page := p; loading := false; error := "";
     selected := None; saved := [] |}.

(** ** The fetch and render cycle *)

(** The call of [fetch] rejects: the network answers with a rejection, or
    not at all. *)
Definition request_throws (w : World SearchData) : Prop :=
  match network w with
  | Resolves _ :: _ => False
  | _ => True
  end.

(** The call of [fetch] resolves to a response whose [ok] is false. *)
Definition responds_not_ok (w : World SearchData) : Prop :=
  match network w with
  | Resolves res :: _ => ok res = false
  | _ => False
  end.

(** The browser after one call of [fetch(url)]. *)
Definition after_request (url : string) (w : World SearchData) : World SearchData :=
  {| storage := storage w; network := tail (network w); requests := requests w ++ [url] |}.

(** The publication year a record sorts by: 0 when it has none. *)
Definition year (b : book) : Z := default 0 (first_publish_year b).

(** ** Sample data: records, stores, answers of the network, states *)

Definition hobbit : book :=
  {| key := "/works/OL27482W"; title := Some "The Hobbit";
     first_publish_year := Some 1937; cover_i := Some 14627509 |}.

Definition silmarillion : book :=
  {| key := "/works/OL27495W"; title := Some "The Silmarillion";
     first_publish_year := Some 1977; cover_i := None |}.

Definition undated : book :=
  {| key := "/works/OL1W"; title := None; first_publish_year := None; cover_i := None |}.

Definition empty_store (quota : nat) : Storage := {| items := ∅; quota := quota |}.

Definition world (s : Storage) (answers : list (fetch_outcome SearchData)) : World SearchData :=
  {| storage := s; network := answers; requests := [] |}.

(** A response that carries the records [ds] and counts [n] of them. *)
Definition found (ds : list book) (n : Z) : fetch_outcome SearchData :=
  Resolves {| ok := true; status := 200;
              json := Some {| docs := Some ds; numFound := Some n; num_found := None |} |}.

(** A state with the sort control set as given. *)
Definition sorting (order : string) : State :=
  {| query := "tolkien"; field := "all"; ebookOnly := false; lang := ""; sort := order;
     books := []; total := 0; page := 1; loading := false; error := "";
     selected := None; saved := [] |}.

(** The state of a first render with the given saved list. *)
Definition fresh (l : list book) : State :=
  {| query := ""; field := "all"; ebookOnly := false; lang := ""; sort := "relevance";
     books := []; total := 0; page := 1; loading := false; error := "";
     selected := None; saved := l |}.

(** A state on page [p] of results that number [n]. *)
Definition paging (n p : Z) : State :=
  {| query := "tolkien"; field := "all"; ebookOnly := false; lang := ""; sort := "relevance";
     books := []; total := n; page := p; loading := false; error := "";
     selected := None; saved := [] |}.

(** ** Further notions *)

(** The body a call of [fetchBooks] gets to read: that of the network's next
    answer, when the answer resolves with an ok status and a JSON body. *)
Definition received (w : World SearchData) : option SearchData :=
  match network w with
  | Resolves res :: _ => if ok res then json res else None
  | _ => None
  end.

(** The count a body reports: [numFound] unless missing or 0, then
    [num_found] unless missing, then 0. *)
Definition reported (data : SearchData) : Z :=
  match numFound data with
  | Some n => if n =? 0 then default 0 (num_found data) else n
  | None => default 0 (num_found data)
  end.

(** Two states agree on what [buildUrl] reads. *)
Definition same_request (a b : State) : Prop :=
  query a = query b ∧ field a = field b ∧ ebookOnly a = ebookOnly b
  ∧ lang a = lang b ∧ page a = page b.

(** Two states agree on everything but the results, the total, the loading
    flag and the error message. *)
Definition same_but_results (a b : State) : Prop :=
  query a = query b ∧ field a = field b ∧ ebookOnly a = ebookOnly b
  ∧ lang a = lang b ∧ sort a = sort b ∧ page a = page b
  ∧ selected a = selected b ∧ saved a = saved b.

(** The pieces of [s] between the occurrences of [sep] (what
    [String.prototype.split] gives for a one-character separator). *)
Fixpoint split_on (sep : ascii) (s : string) : list string :=
  match s with
  | EmptyString => [EmptyString]
  | String c s' =>
      if Ascii.eqb c sep then EmptyString :: split_on sep s'
      else match split_on sep s' with
           | piece :: rest => String c piece :: rest
           | [] => [String c EmptyString]
           end
  end.

(** The state [sorting order] after a search that found the records [bs]
    out of [n]. *)
Definition showing (order : string) (bs : list book) (n : Z) : State :=
  {| query := "tolkien"; field := "all"; ebookOnly := false; lang := ""; sort := order;
     books := bs; total := n; page := 1; loading := false; error := "";
     selected := None; saved := [] |}.

(** A state of the basic component, between two searches. *)
Definition basic (q : string) (shown : list book) (message : string) : BasicFinder.State :=
  {| BasicFinder.query := q; BasicFinder.books := shown;
     BasicFinder.loading := false; BasicFinder.error := message |}.

(** A query that is one unpaired surrogate (U+D800). *)
Definition unpaired : string := string_of_list_ascii (bytes [237; 160; 128]%nat).


(** A response of status 200 whose body is JSON and has no records. *)
Definition no_docs : Response SearchData :=
  {| ok := true; status := 200;
     json := Some {| docs := None; numFound := Some 3; num_found := None |} |}.

(** The character [sep] does not occur in [s]. *)
Definition free_of (sep : ascii) (s : string) : Prop :=
  sep ∉ list_ascii_of_string s.

(** ** Reading the parameters off the text of a URL

    What a reader of the URL does (the URL standard's parser of
    application/x-www-form-urlencoded text, as behind
    [new URL(url).searchParams]): take the text after the first "?", cut it
    at every "&", cut each piece at its first "=", and decode both halves. *)








(** The filter parameters of a state, in the order [buildUrl] sets them. *)
Definition filter_params (st : State) : URLSearchParams :=
  (if ebookOnly st then [("has_fulltext", "true")] else [])
  ++ (if truthy_string (lang st) then [("language", lang st)] else []).

End Notions.

(* ================================================================== *)
(** * Facts about the platform functions *)
(* ================================================================== *)

Module PlatformFacts.
Import Platform.

(** ** Sorting *)
Section SortFacts.
Context {A : Type} (cmp : A → A → Z) (R : relation A).
Hypothesis cmp_R : ∀ x y, cmp x y ≤ 0 ↔ R x y.
Hypothesis R_trans : Transitive R.
Hypothesis R_total : ∀ x y, R x y ∨ R y x.

Lemma sort_insert_Permutation (x : A) (l : list A) : sort_insert cmp x l ≡ₚ x :: l.
Proof.
  induction l as [|y l IH]; simpl; [done|].
  destruct (cmp x y <=? 0); [done|].
  rewrite IH. apply perm_swap.
Qed.

Lemma Array_sort_Permutation (l : list A) : Array_sort cmp l ≡ₚ l.
Proof.
  induction l as [|x l IH]; simpl; [done|].
  unfold Array_sort in *. simpl. by rewrite sort_insert_Permutation, IH.
Qed.

Lemma sort_insert_StronglySorted (x : A) (l : list A) :
  StronglySorted R l → StronglySorted R (sort_insert cmp x l).
Proof.
  induction 1 as [|y l Hl IH Hy]; simpl.
  - repeat constructor.
  - destruct (Z.leb_spec (cmp x y) 0) as [Hle|Hgt].
    + apply cmp_R in Hle. constructor; [by constructor|].
      constructor; [done|].
      eapply Forall_impl; [exact Hy|]. intros z Hz. by transitivity y.
    + assert (R y x) as Hyx.
      { destruct (R_total x y) as [Hxy|]; [|done]. apply cmp_R in Hxy. lia. }
      constructor; [done|].
      rewrite sort_insert_Permutation. by constructor.
Qed.

Lemma Array_sort_StronglySorted (l : list A) : StronglySorted R (Array_sort cmp l).
Proof.
  induction l as [|x l IH]; [constructor|].
  unfold Array_sort in *. simpl. by apply sort_insert_StronglySorted.
Qed.

End SortFacts.

(** The sort is stable: records of one rank keep their order. *)
Section SortStable.
Context {A : Type} (cmp : A → A → Z) (rank : A → Z).
Hypothesis cmp_rank : ∀ x y, cmp x y ≤ 0 ↔ rank x ≤ rank y.

Lemma sort_insert_stable (k : Z) (x : A) (l : list A) :
  filter (λ y, rank y = k) (sort_insert cmp x l) = filter (λ y, rank y = k) (x :: l).
Proof.
  induction l as [|y l IH]; simpl; [done|].
  destruct (Z.leb_spec (cmp x y) 0) as [Hle|Hgt]; [done|].
  assert (rank y < rank x) as Hlt.
  { destruct (Z.lt_ge_cases (rank y) (rank x)) as [|Hge]; [done|].
    apply Z.ge_le_iff, Z.ge_le, cmp_rank in Hge. lia. }
  rewrite (filter_cons _ y), IH, !(filter_cons _ x), (filter_cons _ y).
  repeat case_decide; done || lia.
Qed.

Lemma Array_sort_stable (k : Z) (l : list A) :
  filter (λ y, rank y = k) (Array_sort cmp l) = filter (λ y, rank y = k) l.
Proof.
  induction l as [|x l IH]; [done|].
  unfold Array_sort in *. simpl. rewrite sort_insert_stable, !filter_cons.
  by rewrite IH.
Qed.

End SortStable.

(** ** Trimming: the fuel is enough *)

Lemma strip_prefix_length (w l l' : list ascii) :
  strip_prefix w l = Some l' → (length l = length w + length l')%nat.
Proof.
  revert l. induction w as [|a w IH]; intros [|b l]; simpl; try done.
  - by intros [= <-].
  - by intros [= <-].
  - destruct (Ascii.eqb a b); [|done]. intros Hs. by rewrite (IH _ Hs).
Qed.

Lemma strip_one_shorter (table : list (list ascii)) (l l' : list ascii) :
  Forall (λ w, w ≠ []) table → strip_one table l = Some l' →
  (length l' < length l)%nat.
Proof.
  induction 1 as [|w table Hw _ IH]; simpl; [done|].
  destruct (strip_prefix w l) as [r|] eqn:Hs; [|done].
  intros [= <-]. apply strip_prefix_length in Hs. destruct w; [done|]. simpl in Hs. lia.
Qed.

Lemma strip_all_done (table : list (list ascii)) (fuel : nat) (l : list ascii) :
  Forall (λ w, w ≠ []) table → (length l ≤ fuel)%nat →
  strip_one table (strip_all fuel table l) = None.
Proof.
  intros Htable. revert l. induction fuel as [|fuel IH]; intros l Hlen; simpl.
  - destruct l; [|simpl in Hlen; lia]. clear Hlen.
    induction Htable as [|w table Hw _ IHt]; simpl; [done|]. by destruct w.
  - destruct (strip_one table l) as [l'|] eqn:Hs; [|done].
    apply IH. apply strip_one_shorter in Hs; [lia|done].
Qed.

Lemma white_space_nonempty : Forall (λ w, w ≠ []) white_space.
Proof. unfold white_space. repeat constructor; discriminate. Qed.

(** What [trimStart] returns starts with no white space. *)
Lemma trimStart_bytes_done (l : list ascii) :
  strip_one white_space (trimStart_bytes l) = None.
Proof. apply strip_all_done; [apply white_space_nonempty|done]. Qed.

(** What [trimEnd] returns ends with no white space. *)
Lemma trimEnd_bytes_done (l : list ascii) :
  strip_one (map (@rev ascii) white_space) (rev (trimEnd_bytes l)) = None.
Proof.
  unfold trimEnd_bytes. rewrite rev_involutive. apply strip_all_done.
  - unfold white_space. repeat constructor; discriminate.
  - by rewrite length_rev.
Qed.

(** ** URLSearchParams *)

Lemma params_get_set_eq (name value : string) (ps : URLSearchParams) :
  params_get name (params_set name value ps) = Some value.
Proof.
  induction ps as [|[n v] ps IH]; simpl.
  - by rewrite String.eqb_refl.
  - destruct (String.eqb n name) eqn:E; simpl; [by rewrite String.eqb_refl|].
    by rewrite E.
Qed.

Lemma params_get_delete_ne (name other : string) (ps : URLSearchParams) :
  name ≠ other → params_get other (params_delete name ps) = params_get other ps.
Proof.
  intros Hne. induction ps as [|[n v] ps IH]; simpl; [done|].
  destruct (String.eqb_spec n name) as [->|Hn]; simpl.
  - destruct (String.eqb_spec name other); [done|]. apply IH.
  - by rewrite IH.
Qed.

Lemma params_get_set_ne (name other value : string) (ps : URLSearchParams) :
  name ≠ other → params_get other (params_set name value ps) = params_get other ps.
Proof.
  intros Hne. induction ps as [|[n v] ps IH]; simpl.
  - by destruct (String.eqb_spec name other).
  - destruct (String.eqb_spec n name) as [->|Hn]; simpl.
    + destruct (String.eqb_spec name other); [done|].
      by apply params_get_delete_ne.
    + by rewrite IH.
Qed.

(** ** Rounding up *)

Lemma Math_ceil_div_spec (a b : Z) :
  0 < b → b * (Math_ceil_div a b - 1) < a ≤ b * Math_ceil_div a b.
Proof.
  intros Hb. unfold Math_ceil_div.
  pose proof (Z.div_mod (- a) b ltac:(lia)) as Hdm.
  pose proof (Z.mod_pos_bound (- a) b Hb) as Hm.
  nia.
Qed.

Lemma Math_ceil_div_unique (a b c : Z) :
  0 < b → b * (c - 1) < a ≤ b * c → Math_ceil_div a b = c.
Proof.
  intros Hb Hc. pose proof (Math_ceil_div_spec a b Hb). nia.
Qed.

End PlatformFacts.

(* ================================================================== *)
(** * The saved list *)
(* ================================================================== *)

Module SavedFacts.
Import Platform Model BookFinder Notions.

Lemma filter_key_others (id : string) (l : list book) :
  List.filter (λ b, negb (String.eqb (key b) id)) l = others id l.
Proof.
  unfold others. induction l as [|x l IH]; simpl; [done|].
  rewrite filter_cons. destruct (String.eqb_spec (key x) id) as [Heq|Hne]; simpl.
  - by rewrite decide_False by (intros ?; done).
  - by rewrite decide_True, IH by done.
Qed.

Lemma find_key_Some (id : string) (l : list book) :
  (∃ e, e ∈ l ∧ key e = id) →
  ∃ e, List.find (λ b, String.eqb (key b) id) l = Some e.
Proof.
  intros (e & Hin & Hk). induction l as [|x l IH]; [by apply elem_of_nil in Hin|].
  simpl. destruct (String.eqb_spec (key x) id) as [|Hne]; [by eexists|].
  apply IH. apply elem_of_cons in Hin as [->|]; done.
Qed.

Lemma find_key_None (id : string) (l : list book) :
  (¬ ∃ e, e ∈ l ∧ key e = id) →
  List.find (λ b, String.eqb (key b) id) l = None.
Proof.
  intros Hno. induction l as [|x l IH]; [done|].
  simpl. destruct (String.eqb_spec (key x) id) as [Heq|Hne].
  - destruct Hno. exists x. split; [apply list_elem_of_here|done].
  - apply IH. intros (e & Hin & Hk). apply Hno. exists e.
    split; [by apply list_elem_of_further|done].
Qed.

Lemma toggle_member (b : book) (l : list book) :
  (∃ e, e ∈ l ∧ key e = key b) → toggle b l = others (key b) l.
Proof.
  intros Hex. unfold toggle. destruct (find_key_Some _ _ Hex) as [e ->].
  apply filter_key_others.
Qed.

Lemma toggle_fresh (b : book) (l : list book) :
  (¬ ∃ e, e ∈ l ∧ key e = key b) → toggle b l = l ++ [b].
Proof. intros Hno. unfold toggle. by rewrite (find_key_None _ _ Hno). Qed.

Lemma others_idemp (id : string) (l : list book) :
  others id (others id l) = others id l.
Proof.
  unfold others. induction l as [|x l IH]; [done|].
  rewrite filter_cons. case_decide; [|done].
  rewrite filter_cons, decide_True by done. by rewrite IH.
Qed.

Lemma others_fresh (id : string) (l : list book) :
  (¬ ∃ e, e ∈ l ∧ key e = id) → others id l = l.
Proof.
  unfold others. induction l as [|x l IH]; intros Hno; [done|].
  rewrite filter_cons. case_decide as Hk.
  - f_equal. apply IH. intros (e & Hin & He). apply Hno. exists e.
    split; [by apply list_elem_of_further|done].
  - destruct Hno. exists x. split; [apply list_elem_of_here|].
    by destruct (decide (key x = id)).
Qed.

Lemma others_app (id : string) (l1 l2 : list book) :
  others id (l1 ++ l2) = others id l1 ++ others id l2.
Proof. apply filter_app. Qed.

Lemma others_self (b : book) : others (key b) [b] = [].
Proof. unfold others. rewrite filter_cons, decide_False; [done|]. by intros ?. Qed.

Lemma others_split (b : book) (l1 l2 : list book) :
  NoDup (map key (l1 ++ b :: l2)) →
  others (key b) (l1 ++ b :: l2) = l1 ++ l2
  ∧ ¬ (∃ e, e ∈ l1 ++ l2 ∧ key e = key b).
Proof.
  rewrite map_app. simpl. intros Hnd.
  apply NoDup_app in Hnd as (Hnd1 & Hdisj & Hnd2).
  apply NoDup_cons in Hnd2 as [Hb2 _].
  assert (¬ ∃ e, e ∈ l1 ∧ key e = key b) as H1.
  { intros (e & Hin & Hk). apply (Hdisj (key e)).
    - apply list_elem_of_fmap. by exists e.
    - rewrite Hk. apply list_elem_of_here. }
  assert (¬ ∃ e, e ∈ l2 ∧ key e = key b) as H2.
  { intros (e & Hin & Hk). apply Hb2. apply list_elem_of_fmap. by exists e. }
  split.
  - rewrite others_app. change (b :: l2) with ([b] ++ l2).
    by rewrite others_app, others_self, !others_fresh.
  - intros (e & Hin & Hk). apply elem_of_app in Hin as [Hin|Hin]; eauto.
Qed.

Lemma key_not_in (id : string) (l : list book) :
  id ∉ map key l ↔ ¬ ∃ e, e ∈ l ∧ key e = id.
Proof.
  split.
  - intros Hni (e & Hin & <-). apply Hni. apply list_elem_of_fmap. by exists e.
  - intros Hno Hin. apply list_elem_of_fmap in Hin as (e & -> & Hin). apply Hno. by exists e.
Qed.

(** Toggling twice, on the updater. *)
Lemma toggle_toggle (l : list book) (b : book) :
  NoDup (map key l) →
  (key b ∉ map key l → toggle b (toggle b l) = l)
  ∧ (b ∈ l →
     ∃ l1 l2, l = l1 ++ b :: l2
              ∧ toggle b (toggle b l) = l1 ++ l2 ++ [b]
              ∧ (toggle b (toggle b l) = l ↔ l2 = [])).
Proof.
  intros Hnd. split.
  - intros Hfresh. apply key_not_in in Hfresh.
    rewrite (toggle_fresh _ _ Hfresh), toggle_member.
    + by rewrite others_app, others_self, app_nil_r, others_fresh.
    + exists b. split; [|done]. apply elem_of_app. right. apply list_elem_of_here.
  - intros Hin. destruct (list_elem_of_split _ _ Hin) as (l1 & l2 & ->).
    exists l1, l2. split; [done|].
    destruct (others_split _ _ _ Hnd) as [Hrest Hgone].
    assert (toggle b (toggle b (l1 ++ b :: l2)) = l1 ++ l2 ++ [b]) as Htwice.
    { rewrite (toggle_member b (l1 ++ b :: l2)).
      - rewrite Hrest, (toggle_fresh _ _ Hgone). by rewrite <- app_assoc.
      - exists b. split; [|done]. apply elem_of_app. right. apply list_elem_of_here. }
    split; [done|]. rewrite Htwice. split.
    + intros Heq. apply app_inv_head in Heq.
      destruct l2 as [|x l2]; [done|]. exfalso.
      injection Heq as -> _. apply Hgone. exists b. split; [|done].
      apply elem_of_app. right. apply list_elem_of_here.
    + by intros ->.
Qed.

(** ** Running the handlers *)
Section Run.
Context `{codec : JSON (list book)}.

Lemma toggleSave_run (b : book) (st : State) (w : World SearchData) :
  toggleSave b (st, w)
  = (Normal tt, (with_saved (toggle b (saved st)) st, written (toggle b (saved st)) w)).
Proof.
  unfold toggleSave, setSaved, useLocalStorage_effect, try_catch, localStorage_setItem,
    written, mbind, Eff_bind, set_state, get_state. simpl.
  by destruct (setItem _ _ _).
Qed.

Lemma mount_run (st : State) (w : World SearchData) :
  ∃ st', mount (st, w) = (Normal tt, (st', written (hydrated (storage w)) w))
         ∧ saved st' = hydrated (storage w).
Proof.
  unfold mount, useLocalStorage_init, useLocalStorage_effect, try_catch,
    localStorage_getItem, localStorage_setItem, written, hydrated, mbind, Eff_bind,
    mret, Eff_ret, throw, set_state, get_state. simpl.
  destruct (getItem _ _) as [text|]; simpl.
  - destruct (truthy_string text); simpl.
    + destruct (JSON_parse text); simpl; destruct (setItem _ _ _); eauto.
    + destruct (setItem _ _ _); eauto.
  - destruct (setItem _ _ _); eauto.
Qed.

Lemma written_Some (value : list book) (w : World SearchData) (s' : Storage) :
  setItem storageKey (JSON_stringify value) (storage w) = Some s' →
  getItem storageKey (storage (written value w)) = Some (JSON_stringify value).
Proof.
  unfold written. intros Hs. rewrite Hs. simpl.
  unfold setItem in Hs. destruct (_ <=? _)%nat; [|done].
  injection Hs as <-. unfold getItem. simpl. apply lookup_insert_eq.
Qed.

Lemma written_None (value : list book) (w : World SearchData) :
  setItem storageKey (JSON_stringify value) (storage w) = None →
  written value w = w.
Proof. unfold written. by intros ->. Qed.

End Run.

End SavedFacts.

(* ================================================================== *)
(** * The saved-list store: toggling, mirroring, hydration *)
(* ================================================================== *)

Module SavedList.
Import Platform Model BookFinder Codec Notions SavedFacts.

(** C1. [toggleSave(book)] completes and leaves as the saved list: the
    previous list without every entry of the book's key, when some entry has
    that key; the previous list with the book appended, when none has. In both
    cases the entries of other keys are the same, in the same order. *)
Theorem toggleSave_toggles `{codec : JSON (list book)} (st : State) (w : World SearchData) (b : book) :
  ∃ st' w',
    toggleSave b (st, w) = (Normal tt, (st', w'))
    ∧ ((∃ e, e ∈ saved st ∧ key e = key b) →
       saved st' = filter (λ e, key e ≠ key b) (saved st))
    ∧ ((¬ ∃ e, e ∈ saved st ∧ key e = key b) → saved st' = saved st ++ [b])
    ∧ filter (λ e, key e ≠ key b) (saved st') = filter (λ e, key e ≠ key b) (saved st).
Proof.
  eexists _, _. split; [apply toggleSave_run|]. simpl.
  split; [apply toggle_member|]. split; [apply toggle_fresh|].
  fold (others (key b) (toggle b (saved st))) (others (key b) (saved st)).
  unfold toggle. destruct (List.find _ _).
  - by rewrite filter_key_others, others_idemp.
  - by rewrite others_app, others_self, app_nil_r.
Qed.

Lemma toggleSave_toggles_witness :
  ∃ st' w',
    toggleSave (codec := books_json) hobbit
      (fresh [silmarillion; hobbit; undated], world (empty_store 1000) [])
    = (Normal tt, (st', w'))
    ∧ saved st' = [silmarillion; undated].
Proof.
  destruct (toggleSave_toggles (codec := books_json)
              (fresh [silmarillion; hobbit; undated]) (world (empty_store 1000) []) hobbit)
    as (st' & w' & Hrun & Hmem & _).
  exists st', w'. split; [exact Hrun|].
  rewrite Hmem; [reflexivity|].
  exists hobbit. split; [|reflexivity].
  apply list_elem_of_further, list_elem_of_here.
Defined.

(** C7. On a saved list in which no two entries share a key, calling
    [toggleSave(b)] twice completes both times and: when no entry has the key
    of [b], the saved list is the original one; when [b] is an entry of the
    list, the saved list is the original one with that entry moved to the end,
    which is the original list exactly when the entry was the last one. *)
Theorem toggleSave_twice `{codec : JSON (list book)} (st : State) (w : World SearchData) (b : book) :
  NoDup (map key (saved st)) →
  ∃ st1 w1 st2 w2,
    toggleSave b (st, w) = (Normal tt, (st1, w1))
    ∧ toggleSave b (st1, w1) = (Normal tt, (st2, w2))
    ∧ (key b ∉ map key (saved st) → saved st2 = saved st)
    ∧ (b ∈ saved st →
       ∃ l1 l2, saved st = l1 ++ b :: l2
                ∧ saved st2 = l1 ++ l2 ++ [b]
                ∧ (saved st2 = saved st ↔ l2 = [])).
Proof.
  intros Hnd. eexists _, _, _, _.
  split; [apply toggleSave_run|]. split; [apply toggleSave_run|]. simpl.
  exact (toggle_toggle (saved st) b Hnd).
Qed.

Lemma toggleSave_twice_witness :
  ∃ st1 w1 st2 w2,
    toggleSave (codec := books_json) undated
      (fresh [silmarillion; hobbit], world (empty_store 1000) [])
    = (Normal tt, (st1, w1))
    ∧ toggleSave (codec := books_json) undated (st1, w1) = (Normal tt, (st2, w2))
    ∧ saved st2 = [silmarillion; hobbit].
Proof.
  destruct (toggleSave_twice (codec := books_json)
              (fresh [silmarillion; hobbit]) (world (empty_store 1000) []) undated)
    as (st1 & w1 & st2 & w2 & Hfirst & Hsecond & Hback & _).
  - compute_done.
  - exists st1, w1, st2, w2. split; [exact Hfirst|]. split; [exact Hsecond|].
    apply Hback. compute_done.
Defined.

(** C2, as amended. After [toggleSave] the entry of the store under
    "bookfinder.saved" is the JSON text of the saved list whenever the write
    does not throw; when it throws, the store is as it was. On load the saved
    list is what the JSON text stored under that key parses to. *)
Theorem saved_list_mirrored `{codec : JSON (list book)} :
  (∀ st w b, ∃ st' w',
      toggleSave b (st, w) = (Normal tt, (st', w'))
      ∧ saved st' = toggle b (saved st)
      ∧ (is_Some (setItem "bookfinder.saved" (JSON_stringify (toggle b (saved st))) (storage w)) →
         getItem "bookfinder.saved" (storage w') = Some (JSON_stringify (saved st')))
      ∧ (setItem "bookfinder.saved" (JSON_stringify (toggle b (saved st))) (storage w) = None →
         storage w' = storage w))
  ∧ (∀ st w text v,
      getItem "bookfinder.saved" (storage w) = Some text →
      JSON_parse text = Some v →
      ∃ st' w', mount (st, w) = (Normal tt, (st', w')) ∧ saved st' = v).
Proof.
  split.
  - intros st w b. eexists _, _. split; [apply toggleSave_run|]. simpl.
    split; [done|]. split.
    + intros [s' Hs']. by eapply written_Some.
    + intros Hnone. by rewrite written_None.
  - intros st w text v Hget Hparse.
    destruct (mount_run st w) as (st' & Hrun & Hsaved).
    exists st', (written (hydrated (storage w)) w). split; [done|].
    rewrite Hsaved. unfold hydrated, storageKey. rewrite Hget.
    destruct text; simpl.
    + by rewrite JSON_parse_empty in Hparse.
    + by rewrite Hparse.
Qed.

Lemma saved_list_mirrored_witness :
  (∃ st' w',
      toggleSave (codec := books_json) hobbit (fresh [undated], world (empty_store 1000) [])
      = (Normal tt, (st', w'))
      ∧ getItem "bookfinder.saved" (storage w') = Some (stringify_books (saved st')))
  ∧ (∃ st' w',
      mount (codec := books_json)
        (fresh [], world {| items := {[ "bookfinder.saved" := stringify_books [hobbit] ]};
                            quota := 1000 |} [])
      = (Normal tt, (st', w'))
      ∧ saved st' = [hobbit]).
Proof.
  destruct (saved_list_mirrored (codec := books_json)) as [Hwrite Hload]. split.
  - destruct (Hwrite (fresh [undated]) (world (empty_store 1000) []) hobbit)
      as (st' & w' & Hrun & _ & Hok & _).
    exists st', w'. split; [exact Hrun|]. apply Hok.
    vm_compute. eexists. reflexivity.
  - apply (Hload _ _ (stringify_books [hobbit])).
    + apply lookup_singleton_eq.
    + vm_compute. reflexivity.
Defined.

(** C2, as stated, fails where the store refuses the write. The store holds
    "[]" under the key and has a quota of 40 bytes; saving a record needs
    more, [setItem] throws, and the entry stays "[]" while the saved list
    holds the record. *)
Lemma write_over_quota_not_mirrored :
  ∃ st' w',
    toggleSave (codec := books_json) hobbit
      (fresh [], world {| items := {[ "bookfinder.saved" := "[]" ]}; quota := 40 |} [])
    = (Normal tt, (st', w'))
    ∧ saved st' = [hobbit]
    ∧ getItem "bookfinder.saved" (storage w') = Some "[]"
    ∧ getItem "bookfinder.saved" (storage w')
      ≠ Some (JSON_stringify (JSON := books_json) (saved st')).
Proof.
  eexists _, _. split; [apply toggleSave_run|].
  split; [reflexivity|].
  rewrite written_None by (vm_compute; reflexivity).
  split; [apply lookup_singleton_eq|].
  change (getItem _ _) with (({[ "bookfinder.saved" := "[]" ]} : gmap string string) !! "bookfinder.saved").
  rewrite lookup_singleton_eq. vm_compute. discriminate.
Qed.

(** C8. When the store has no entry under "bookfinder.saved", or an entry
    that [JSON.parse] throws on, the saved list starts empty. When the write
    to the store throws, [toggleSave] still completes without an exception and
    the saved list holds the result of the toggle. *)
Theorem storage_failures_tolerated `{codec : JSON (list book)} :
  (∀ st w,
      (getItem "bookfinder.saved" (storage w) = None
       ∨ ∃ text, getItem "bookfinder.saved" (storage w) = Some text ∧ JSON_parse text = None) →
      ∃ st' w', mount (st, w) = (Normal tt, (st', w')) ∧ saved st' = [])
  ∧ (∀ st w b,
      setItem "bookfinder.saved" (JSON_stringify (toggle b (saved st))) (storage w) = None →
      ∃ st', toggleSave b (st, w) = (Normal tt, (st', w))
             ∧ saved st' = toggle b (saved st)).
Proof.
  split.
  - intros st w Hbad. destruct (mount_run st w) as (st' & Hrun & Hsaved).
    exists st', (written (hydrated (storage w)) w). split; [done|].
    rewrite Hsaved. unfold hydrated, storageKey.
    destruct Hbad as [->|(text & -> & Hparse)]; [done|].
    rewrite Hparse. by destruct (truthy_string text).
  - intros st w b Hfull. exists (with_saved (toggle b (saved st)) st).
    split; [|done]. by rewrite toggleSave_run, written_None.
Qed.

Lemma storage_failures_tolerated_witness :
  (∃ st' w',
      mount (codec := books_json)
        (fresh [hobbit], world {| items := {[ "bookfinder.saved" := "[{oops" ]};
                                  quota := 1000 |} [])
      = (Normal tt, (st', w'))
      ∧ saved st' = [])
  ∧ (∃ st',
      toggleSave (codec := books_json) hobbit (fresh [], world (empty_store 40) [])
      = (Normal tt, (st', world (empty_store 40) []))
      ∧ saved st' = [hobbit]).
Proof.
  destruct (storage_failures_tolerated (codec := books_json)) as [Hload Hwrite]. split.
  - apply Hload. right. exists "[{oops". split.
    + apply lookup_singleton_eq.
    + vm_compute. reflexivity.
  - apply (Hwrite (fresh []) (world (empty_store 40) []) hobbit).
    vm_compute. reflexivity.
Defined.

End SavedList.

(* ================================================================== *)
(** * The query builder *)
(* ================================================================== *)

Module QueryBuilder.
Import Platform Model BookFinder Notions PlatformFacts.


Ltac params_open st :=
  unfold buildParams, search_param;
  generalize (String_of_number (page st)); intros pg;
  generalize (String.concat "," fields); intros fl.

Ltac params_cases st :=
  destruct (String.eqb (field st) "title");
  [|destruct (String.eqb (field st) "author");
    [|destruct (String.eqb (field st) "subject");
      [|destruct (String.eqb (field st) "isbn")]]];
  destruct (ebookOnly st); destruct (truthy_string (lang st)).



End QueryBuilder.

(* ================================================================== *)
(** * The fetch and render cycle *)
(* ================================================================== *)

Module FetchCycle.
Import Platform Model BookFinder Codec Notions PlatformFacts.

Ltac run :=
  unfold fetchBooks, debounced, BasicFinder.searchBooks, try_finally, try_catch, fetch, res_json, when,
    setBooks, setTotal, setError, setLoading,
    BasicFinder.setBooks, BasicFinder.setError, BasicFinder.setLoading,
    set_state, get_state, throw, mbind, Eff_bind, mret, Eff_ret, after_request.

Lemma fetchBooks_failure (st : State) (w : World SearchData) :
  request_throws w ∨ responds_not_ok w →
  fetchBooks (st, w)
  = (Normal tt,
     ({| query := query st; field := field st; ebookOnly := ebookOnly st; lang := lang st;
         sort := sort st; books := []; total := 0; page := page st; loading := false;
         error := "Network error. Please try again."; selected := selected st;
         saved := saved st |},
      after_request (buildUrl st) w)).
Proof.
  unfold request_throws, responds_not_ok. intros Hfail. run. simpl.
  destruct (network w) as [|[|res] rest]; simpl; [done..|].
  destruct Hfail as [ [] | -> ]. reflexivity.
Qed.

Lemma fetchBooks_success (st : State) (w : World SearchData) res rest data :
  network w = Resolves res :: rest → ok res = true → json res = Some data →
  let found := match docs data with Some ds => ds | None => [] end in
  let shown :=
    if String.eqb (sort st) "year_asc" then Array_sort by_year_asc found
    else if String.eqb (sort st) "year_desc" then Array_sort by_year_desc found
    else found in
  fetchBooks (st, w)
  = (Normal tt,
     ({| query := query st; field := field st; ebookOnly := ebookOnly st; lang := lang st;
         sort := sort st; books := shown;
         total := or_zero (or_else (numFound data) (or_else (num_found data) (Some 0)));
         page := page st; loading := false;
         error := if Nat.eqb (length shown) 0 then "No books found." else "";
         selected := selected st; saved := saved st |},
      after_request (buildUrl st) w)).
Proof.
  intros Hnet Hok Hjson. run. simpl. rewrite Hnet. simpl. rewrite Hok. simpl.
  rewrite Hjson. simpl.
  destruct (Nat.eqb _ 0); reflexivity.
Qed.

Lemma by_year_asc_le (a b : book) : by_year_asc a b ≤ 0 ↔ year a ≤ year b.
Proof.
  unfold by_year_asc, year, or_zero.
  destruct (first_publish_year a), (first_publish_year b); simpl; lia.
Qed.

Lemma by_year_desc_ge (a b : book) : by_year_desc a b ≤ 0 ↔ year b ≤ year a.
Proof.
  unfold by_year_desc, year, or_zero.
  destruct (first_publish_year a), (first_publish_year b); simpl; lia.
Qed.

Lemma searchBooks_failure (st : BasicFinder.State) (w : World SearchData) :
  trim (BasicFinder.query st) ≠ "" → request_throws w →
  BasicFinder.searchBooks (st, w)
  = (Normal tt,
     ({| BasicFinder.query := BasicFinder.query st; BasicFinder.books := BasicFinder.books st;
         BasicFinder.loading := false;
         BasicFinder.error := "Network error. Please try again." |},
      after_request
        ("https://openlibrary.org/search.json?q=" +:+ encodeURIComponent (BasicFinder.query st)) w)).
Proof.
  unfold request_throws. intros Hq Hfail. run. simpl.
  destruct (trim (BasicFinder.query st)); [done|]. simpl.
  destruct (network w) as [|[|res] rest]; simpl; done.
Qed.

(** C5. When the fetch succeeds with an array of records, [fetchBooks]
    completes and the results are: under "year_asc" a permutation of the
    records in which no record comes before one of a smaller year; under
    "year_desc" a permutation in which none comes before one of a greater
    year; under "relevance" the records as fetched. A record without a year
    counts as of year 0. *)
Theorem fetchBooks_sorts (st : State) (w : World SearchData) res rest data ds :
  network w = Resolves res :: rest → ok res = true → json res = Some data →
  docs data = Some ds →
  ∃ st' w',
    fetchBooks (st, w) = (Normal tt, (st', w'))
    ∧ (sort st = "year_asc" →
       books st' ≡ₚ ds ∧ StronglySorted (λ a b, year a ≤ year b) (books st'))
    ∧ (sort st = "year_desc" →
       books st' ≡ₚ ds ∧ StronglySorted (λ a b, year b ≤ year a) (books st'))
    ∧ (sort st = "relevance" → books st' = ds).
Proof.
  intros Hnet Hok Hjson Hdocs. eexists _, _.
  split; [by eapply fetchBooks_success|]. simpl. rewrite Hdocs.
  split; [|split]; intros ->; simpl.
  - split; [apply Array_sort_Permutation|].
    apply (Array_sort_StronglySorted by_year_asc _ by_year_asc_le).
    + intros a b c. lia.
    + intros a b. lia.
  - split; [apply Array_sort_Permutation|].
    apply (Array_sort_StronglySorted by_year_desc _ by_year_desc_ge).
    + intros a b c. lia.
    + intros a b. lia.
  - reflexivity.
Qed.

Lemma fetchBooks_sorts_witness :
  ∃ st' w',
    fetchBooks (sorting "year_asc",
                world (empty_store 0) [found [silmarillion; hobbit; undated] 3])
    = (Normal tt, (st', w'))
    ∧ books st' ≡ₚ [silmarillion; hobbit; undated]
    ∧ StronglySorted (λ a b, year a ≤ year b) (books st').
Proof.
  destruct (fetchBooks_sorts (sorting "year_asc")
              (world (empty_store 0) [found [silmarillion; hobbit; undated] 3])
              _ _ _ [silmarillion; hobbit; undated]
              eq_refl eq_refl eq_refl eq_refl)
    as (st' & w' & Hrun & Hasc & _).
  exists st', w'. split; [exact Hrun|]. by apply Hasc.
Defined.



(** C9. When the trimmed query is empty, what the debounce timer runs
    completes without touching the browser (no request), and leaves the
    results empty, the total 0, the error message empty and the loading flag
    false. *)
Theorem debounced_blank_query (st : State) (w : World SearchData) :
  trim (query st) = "" →
  ∃ st',
    debounced (st, w) = (Normal tt, (st', w))
    ∧ books st' = [] ∧ total st' = 0 ∧ error st' = "" ∧ loading st' = false.
Proof.
  intros Hq. eexists. unfold debounced, get_state, mbind, Eff_bind. simpl.
  rewrite Hq. simpl. run. simpl. by repeat split.
Qed.

Lemma debounced_blank_query_witness :
  ∃ st',
    debounced
      ({| query := "   "; field := "title"; ebookOnly := false; lang := ""; sort := "relevance";
          books := [hobbit]; total := 40; page := 2; loading := true; error := "No books found.";
          selected := None; saved := [] |},
       world (empty_store 0) [found [hobbit] 1])
    = (Normal tt, (st', world (empty_store 0) [found [hobbit] 1]))
    ∧ books st' = [] ∧ total st' = 0 ∧ error st' = "" ∧ loading st' = false.
Proof.
  apply (debounced_blank_query _ (world (empty_store 0) [found [hobbit] 1])).
  vm_compute. reflexivity.
Defined.

End FetchCycle.

(* ================================================================== *)
(** * Pagination *)
(* ================================================================== *)

Module Pagination.
Import Platform Model BookFinder Codec Notions PlatformFacts.

Lemma onPrev_run (st : State) (w : World SearchData) :
  ∃ st', onPrev (st, w) = (Normal tt, (st', w))
         ∧ page st' = prevPage (page st) ∧ total st' = total st.
Proof. eexists. split; [reflexivity|]. by simpl. Qed.

Lemma onNext_run (st : State) (w : World SearchData) :
  ∃ st', onNext (st, w) = (Normal tt, (st', w))
         ∧ page st' = nextPage (totalPages st) (page st) ∧ total st' = total st.
Proof. eexists. split; [reflexivity|]. by simpl. Qed.

(** C10, as stated, fails for Prev: it clamps the page from below only. On
    page 5 of results that number 30 (two pages), Prev gives page 4, past the
    last page. *)
Lemma prev_past_last_page :
  ∃ st',
    onPrev (paging 30 5, world (empty_store 0) []) = (Normal tt, (st', world (empty_store 0) []))
    ∧ 1 ≤ page (paging 30 5)
    ∧ page st' = 4
    ∧ totalPages st' = 2
    ∧ totalPages st' < page st'.
Proof. eexists. split; [reflexivity|]. by vm_compute. Qed.

(** C10, as amended. [totalPages] is the greater of 1 and the total divided
    by 20 rounded up. From a page [p ≥ 1], Prev gives [max(1, p - 1)] and Next
    gives [min(totalPages, p + 1)], neither changes [totalPages], the page
    never drops below 1, Next never gives a page past [totalPages], and Prev
    does not either when [p ≤ totalPages + 1]. *)
Theorem pagination_bounds (st : State) (w : World SearchData) :
  (∃ c, 20 * (c - 1) < total st ≤ 20 * c ∧ totalPages st = Z.max 1 c)
  ∧ (1 ≤ page st →
     ∃ prev next,
       onPrev (st, w) = (Normal tt, (prev, w))
       ∧ onNext (st, w) = (Normal tt, (next, w))
       ∧ page prev = Z.max 1 (page st - 1)
       ∧ page next = Z.min (totalPages st) (page st + 1)
       ∧ totalPages prev = totalPages st
       ∧ totalPages next = totalPages st
       ∧ 1 ≤ page prev
       ∧ 1 ≤ page next ≤ totalPages st
       ∧ (page st ≤ totalPages st + 1 → page prev ≤ totalPages st)).
Proof.
  split.
  - exists (Math_ceil_div (total st) pageSize). split; [|reflexivity].
    by apply (Math_ceil_div_spec (total st) 20).
  - intros Hp.
    destruct (onPrev_run st w) as (prev & Hprev & Hpp & Htp).
    destruct (onNext_run st w) as (next & Hnext & Hpn & Htn).
    exists prev, next. unfold totalPages in *. rewrite Hpp, Hpn, Htp, Htn.
    unfold prevPage, nextPage. repeat split; try done; lia.
Qed.

Lemma pagination_bounds_witness :
  totalPages (paging 41 3) = 3
  ∧ ∃ prev next,
      onPrev (paging 41 3, world (empty_store 0) []) = (Normal tt, (prev, world (empty_store 0) []))
      ∧ onNext (paging 41 3, world (empty_store 0) []) = (Normal tt, (next, world (empty_store 0) []))
      ∧ page prev = 2 ∧ page next = 3.
Proof.
  destruct (pagination_bounds (paging 41 3) (world (empty_store 0) [])) as [(c & Hc & Htotal) Hstep].
  split.
  - rewrite Htotal. change (total (paging 41 3)) with 41 in Hc. lia.
  - destruct Hstep as (prev & next & Hprev & Hnext & Hpp & Hpn & _); [by vm_compute|].
    exists prev, next. split; [exact Hprev|]. split; [exact Hnext|].
    split; [rewrite Hpp|rewrite Hpn]; by vm_compute.
Defined.

End Pagination.

(* ================================================================== *)
(** * More on the fetch and render cycle *)
(* ================================================================== *)

Module FetchFacts.
Import Platform Model BookFinder Codec Notions PlatformFacts FetchCycle.

Lemma received_cases (w : World SearchData) :
  match received w with
  | Some data => ∃ res rest, network w = Resolves res :: rest ∧ ok res = true
                             ∧ json res = Some data
  | None => request_throws w ∨ responds_not_ok w
            ∨ ∃ res rest, network w = Resolves res :: rest ∧ json res = None
  end.
Proof.
  unfold received, request_throws, responds_not_ok.
  destruct (network w) as [|[|res] rest]; [by left|by left|].
  destruct (ok res) eqn:Hok; [|by right; left].
  destruct (json res) eqn:Hj; [by eexists _, _|].
  right; right. by eexists _, _.
Qed.

Lemma fetchBooks_unparsable (st : State) (w : World SearchData) res rest :
  network w = Resolves res :: rest → json res = None →
  fetchBooks (st, w)
  = (Normal tt,
     ({| query := query st; field := field st; ebookOnly := ebookOnly st; lang := lang st;
         sort := sort st; books := []; total := 0; page := page st; loading := false;
         error := "Network error. Please try again."; selected := selected st;
         saved := saved st |},
      after_request (buildUrl st) w)).
Proof.
  intros Hnet Hjson. run. simpl. rewrite Hnet. simpl. rewrite Hjson.
  by destruct (ok res).
Qed.

Lemma fetchBooks_run (st : State) (w : World SearchData) :
  ∃ st',
    fetchBooks (st, w) = (Normal tt, (st', after_request (buildUrl st) w))
    ∧ same_but_results st' st
    ∧ loading st' = false
    ∧ match received w with
      | Some data =>
          books st'
          = (let ds := default [] (docs data) in
             if String.eqb (sort st) "year_asc" then Array_sort by_year_asc ds
             else if String.eqb (sort st) "year_desc" then Array_sort by_year_desc ds
             else ds)
          ∧ total st' = reported data
          ∧ error st' = (if decide (books st' = []) then "No books found." else "")
      | None =>
          books st' = [] ∧ total st' = 0 ∧ error st' = "Network error. Please try again."
      end.
Proof.
  pose proof (received_cases w) as Hcases.
  destruct (received w) as [data|].
  - destruct Hcases as (res & rest & Hnet & Hok & Hjson). eexists.
    split; [by eapply fetchBooks_success|]. simpl.
    split; [by repeat split|]. split; [done|].
    split; [by destruct (docs data)|]. split.
    + unfold reported, or_else, or_zero.
      destruct (numFound data) as [n|]; [destruct (n =? 0)|];
        destruct (num_found data) as [m|]; simpl; try done; by destruct (m =? 0) eqn:E; [apply Z.eqb_eq in E|].
    + unfold default.
      match goal with |- context [decide (?l = [])] => generalize l end.
      intros [|x l]; [rewrite decide_True by done|rewrite decide_False by done];
        reflexivity.
  - eexists. split.
    + destruct Hcases as [Hfail|[Hfail|(res & rest & Hnet & Hjson)]].
      * apply fetchBooks_failure. by left.
      * apply fetchBooks_failure. by right.
      * by eapply fetchBooks_unparsable.
    + simpl. by repeat split.
Qed.

Lemma buildUrl_same_request (a b : State) : same_request a b → buildUrl a = buildUrl b.
Proof.
  intros (Hq & Hf & He & Hl & Hp). unfold buildUrl, buildParams.
  by rewrite Hq, Hf, He, Hl, Hp.
Qed.

Lemma shown_Permutation (order : string) (ds : list book) :
  (if String.eqb order "year_asc" then Array_sort by_year_asc ds
   else if String.eqb order "year_desc" then Array_sort by_year_desc ds
   else ds) ≡ₚ ds.
Proof. repeat case_match; by rewrite ?Array_sort_Permutation. Qed.

(** X1. Whatever the state and the network, [fetchBooks] completes without
    an exception after exactly one request, for the URL of [buildUrl]; it
    leaves the loading flag false and does not touch the search controls, the
    page, the selection, the saved list or the store. *)
Theorem fetchBooks_completes (st : State) (w : World SearchData) :
  ∃ st' w',
    fetchBooks (st, w) = (Normal tt, (st', w'))
    ∧ requests w' = requests w ++ [buildUrl st]
    ∧ network w' = tail (network w)
    ∧ storage w' = storage w
    ∧ loading st' = false
    ∧ query st' = query st ∧ field st' = field st ∧ ebookOnly st' = ebookOnly st
    ∧ lang st' = lang st ∧ sort st' = sort st ∧ page st' = page st
    ∧ selected st' = selected st ∧ saved st' = saved st.
Proof.
  destruct (fetchBooks_run st w) as (st' & Hrun & Hsame & Hload & _).
  exists st', (after_request (buildUrl st) w). split; [done|].
  destruct Hsame as (? & ? & ? & ? & ? & ? & ? & ?). by repeat split.
Qed.

(** X2. When the answer is ok and has a JSON body, the total is the count
    the body reports ([numFound], else [num_found], else 0), and the message is
    "No books found." when no record is shown and empty otherwise; a body
    without an array of records shows none. *)
Theorem fetchBooks_reports (st : State) (w : World SearchData) (data : SearchData) :
  received w = Some data →
  ∃ st' w',
    fetchBooks (st, w) = (Normal tt, (st', w'))
    ∧ books st' ≡ₚ default [] (docs data)
    ∧ total st' = reported data
    ∧ (default [] (docs data) = [] → books st' = [] ∧ error st' = "No books found.")
    ∧ (default [] (docs data) ≠ [] → books st' ≠ [] ∧ error st' = "").
Proof.
  intros Hrec. destruct (fetchBooks_run st w) as (st' & Hrun & _ & _ & Hres).
  rewrite Hrec in Hres. destruct Hres as (Hbooks & Htotal & Herr).
  exists st', (after_request (buildUrl st) w). split; [done|].
  assert (books st' ≡ₚ default [] (docs data)) as Hperm.
  { rewrite Hbooks. apply shown_Permutation. }
  split; [done|]. split; [done|]. split.
  - intros Hnil. rewrite Hnil in Hperm. apply Permutation_nil_r in Hperm.
    split; [done|]. by rewrite Herr, decide_True.
  - intros Hne. assert (books st' ≠ []) as Hne'.
    { intros Hnil. rewrite Hnil in Hperm. symmetry in Hperm.
      by apply Permutation_nil_r in Hperm. }
    split; [done|]. by rewrite Herr, decide_False.
Qed.

Lemma fetchBooks_reports_witness :
  ∃ st' w',
    fetchBooks (sorting "year_desc",
                world (empty_store 0)
                  [Resolves {| ok := true; status := 200;
                               json := Some {| docs := Some [hobbit; silmarillion];
                                               numFound := Some 0; num_found := Some 57 |} |}])
    = (Normal tt, (st', w'))
    ∧ total st' = 57 ∧ books st' ≠ [] ∧ error st' = "".
Proof.
  destruct (fetchBooks_reports (sorting "year_desc")
              (world (empty_store 0)
                 [Resolves {| ok := true; status := 200;
                              json := Some {| docs := Some [hobbit; silmarillion];
                                              numFound := Some 0; num_found := Some 57 |} |}])
              _ eq_refl)
    as (st' & w' & Hrun & _ & Htotal & _ & Hfull).
  exists st', w'. split; [exact Hrun|]. split; [exact Htotal|]. by apply Hfull.
Defined.

(** X3. An answer whose body is not JSON, whatever its status, is handled
    like a failed request: the results are emptied, the total is 0 and the
    message is "Network error. Please try again.". *)
Theorem fetchBooks_unparsable_body (st : State) (w : World SearchData) res rest :
  network w = Resolves res :: rest → json res = None →
  ∃ st' w',
    fetchBooks (st, w) = (Normal tt, (st', w'))
    ∧ network w' = rest
    ∧ books st' = [] ∧ total st' = 0
    ∧ error st' = "Network error. Please try again."
    ∧ loading st' = false.
Proof.
  intros Hnet Hjson. eexists _, _.
  split; [by eapply fetchBooks_unparsable|]. simpl. by rewrite Hnet.
Qed.

Lemma fetchBooks_unparsable_body_witness :
  ∃ st' w',
    fetchBooks (paging 40 2,
                world (empty_store 0) [Resolves {| ok := true; status := 200; json := None |}])
    = (Normal tt, (st', w'))
    ∧ network w' = []
    ∧ books st' = [] ∧ total st' = 0
    ∧ error st' = "Network error. Please try again."
    ∧ loading st' = false.
Proof.
  exact (fetchBooks_unparsable_body (paging 40 2)
           (world (empty_store 0) [Resolves {| ok := true; status := 200; json := None |}])
           _ _ eq_refl eq_refl).
Defined.

(** X4. After [fetchBooks], whatever the network answered, the results are
    empty exactly when a message is set. *)
Theorem fetchBooks_empty_iff_message (st : State) (w : World SearchData) :
  ∃ st' w',
    fetchBooks (st, w) = (Normal tt, (st', w'))
    ∧ (books st' = [] ↔ error st' ≠ "").
Proof.
  destruct (fetchBooks_run st w) as (st' & Hrun & _ & _ & Hres).
  exists st', (after_request (buildUrl st) w). split; [done|].
  destruct (received w) as [data|].
  - destruct Hres as (_ & _ & ->). by case_decide.
  - by destruct Hres as (-> & _ & ->).
Qed.

(** X5. Sorting by year keeps the fetched order among records of the same
    year (a missing year counting as 0), in both directions. *)
Theorem fetchBooks_stable (st : State) (w : World SearchData) (data : SearchData) ds :
  received w = Some data → docs data = Some ds →
  sort st = "year_asc" ∨ sort st = "year_desc" →
  ∃ st' w',
    fetchBooks (st, w) = (Normal tt, (st', w'))
    ∧ ∀ y, filter (λ b, year b = y) (books st') = filter (λ b, year b = y) ds.
Proof.
  intros Hrec Hdocs Hsort. destruct (fetchBooks_run st w) as (st' & Hrun & _ & _ & Hres).
  rewrite Hrec, Hdocs in Hres. destruct Hres as (Hbooks & _).
  exists st', (after_request (buildUrl st) w). split; [done|].
  intros y. rewrite Hbooks. simpl. destruct Hsort as [-> | ->]; simpl.
  - apply (Array_sort_stable by_year_asc year by_year_asc_le).
  - rewrite !(list_filter_iff (λ b, year b = y) (λ b, - year b = - y)) by (intros b; lia).
    apply (Array_sort_stable by_year_desc (λ b, - year b)).
    intros a b. rewrite by_year_desc_ge. lia.
Qed.

Lemma fetchBooks_stable_witness :
  ∃ st' w',
    fetchBooks (sorting "year_desc",
                world (empty_store 0) [found [undated; hobbit; undated; silmarillion] 4])
    = (Normal tt, (st', w'))
    ∧ filter (λ b, year b = 1937) (books st') = [hobbit].
Proof.
  destruct (fetchBooks_stable (sorting "year_desc")
              (world (empty_store 0) [found [undated; hobbit; undated; silmarillion] 4])
              _ _ eq_refl eq_refl (or_intror eq_refl))
    as (st' & w' & Hrun & Hstable).
  exists st', w'. split; [exact Hrun|]. by rewrite Hstable.
Defined.

(** X6. The sort control is not part of the request: two states that agree
    on the query, the field, the filters and the page send the same request,
    and on the same ok answer they show the same records up to order, with the
    same total. *)
Theorem sort_is_local (st1 st2 : State) (w : World SearchData) (data : SearchData) :
  same_request st1 st2 → received w = Some data →
  ∃ st1' st2' w',
    fetchBooks (st1, w) = (Normal tt, (st1', w'))
    ∧ fetchBooks (st2, w) = (Normal tt, (st2', w'))
    ∧ requests w' = requests w ++ [buildUrl st1]
    ∧ books st1' ≡ₚ books st2'
    ∧ total st1' = total st2'.
Proof.
  intros Hsame Hrec.
  destruct (fetchBooks_run st1 w) as (st1' & Hrun1 & _ & _ & Hres1).
  destruct (fetchBooks_run st2 w) as (st2' & Hrun2 & _ & _ & Hres2).
  rewrite <- (buildUrl_same_request _ _ Hsame) in Hrun2.
  rewrite Hrec in Hres1, Hres2.
  destruct Hres1 as (Hb1 & Ht1 & _), Hres2 as (Hb2 & Ht2 & _).
  exists st1', st2', (after_request (buildUrl st1) w).
  split; [done|]. split; [done|]. split; [done|]. split; [|congruence].
  rewrite Hb1, Hb2. by rewrite !shown_Permutation.
Qed.

Lemma sort_is_local_witness :
  ∃ st1' st2' w',
    fetchBooks (sorting "year_asc", world (empty_store 0) [found [silmarillion; hobbit] 2])
    = (Normal tt, (st1', w'))
    ∧ fetchBooks (sorting "relevance", world (empty_store 0) [found [silmarillion; hobbit] 2])
      = (Normal tt, (st2', w'))
    ∧ books st1' ≡ₚ books st2'.
Proof.
  destruct (sort_is_local (sorting "year_asc") (sorting "relevance")
              (world (empty_store 0) [found [silmarillion; hobbit] 2]) _
              ltac:(by repeat split) eq_refl)
    as (st1' & st2' & w' & Hrun1 & Hrun2 & _ & Hperm & _).
  by exists st1', st2', w'.
Defined.

End FetchFacts.

(* ================================================================== *)
(** * More on the query builder *)
(* ================================================================== *)

Module QueryFacts.
Import Platform Model BookFinder Codec Notions PlatformFacts QueryBuilder.

(** ** Splitting a serialized query *)

Lemma free_of_app (sep : ascii) (a b : string) :
  free_of sep (a +:+ b) ↔ free_of sep a ∧ free_of sep b.
Proof.
  unfold free_of. induction a as [|c a IH]; simpl.
  - split; [intros ?; split; [apply not_elem_of_nil|done]|by intros [_ ?]].
  - rewrite !not_elem_of_cons, IH. tauto.
Qed.

Lemma split_on_free (sep : ascii) (s : string) : free_of sep s → split_on sep s = [s].
Proof.
  unfold free_of. induction s as [|c s IH]; simpl; [done|].
  rewrite not_elem_of_cons. intros [Hc Hs].
  destruct (Ascii.eqb_spec c sep) as [->|_]; [done|]. by rewrite IH.
Qed.

Lemma split_on_app (sep : ascii) (a b : string) :
  free_of sep a →
  split_on sep (a +:+ String sep b) = a :: split_on sep b.
Proof.
  unfold free_of. induction a as [|c a IH]; simpl.
  - intros _. by rewrite Ascii.eqb_refl.
  - rewrite not_elem_of_cons. intros [Hc Ha].
    destruct (Ascii.eqb_spec c sep) as [->|_]; [done|]. by rewrite IH.
Qed.

Lemma split_on_concat (sep : ascii) (pieces : list string) :
  pieces ≠ [] → Forall (free_of sep) pieces →
  split_on sep (String.concat (String sep EmptyString) pieces) = pieces.
Proof.
  induction pieces as [|x [|y rest] IH]; intros Hne Hfree; [done|..].
  - simpl. apply split_on_free. by inversion Hfree.
  - inversion Hfree as [|? ? Hx Hrest]; subst.
    change (String.concat (String sep EmptyString) (x :: y :: rest))
      with (x +:+ String sep EmptyString +:+ String.concat (String sep EmptyString) (y :: rest)).
    change (String sep EmptyString +:+ ?t) with (String sep t).
    rewrite split_on_app by done. f_equal. by apply IH.
Qed.

(** ** What the encoders can give *)

Lemma encode_with_free (enc : ascii → string) (sep : ascii) (s : string) :
  (∀ c, free_of sep (enc c)) → free_of sep (encode_with enc s).
Proof.
  intros Henc. induction s as [|c s IH]; simpl; [apply not_elem_of_nil|].
  apply free_of_app. by split.
Qed.

Lemma ascii_cases (P : ascii → Prop) :
  (∀ b0 b1 b2 b3 b4 b5 b6 b7, P (Ascii b0 b1 b2 b3 b4 b5 b6 b7)) → ∀ c, P c.
Proof. intros H []. apply H. Qed.

Lemma form_byte_free (sep : ascii) (c : ascii) :
  sep = "&"%char ∨ sep = "="%char → free_of sep (form_byte c).
Proof.
  intros Hsep. revert c. apply ascii_cases.
  destruct Hsep as [-> | ->];
    intros [] [] [] [] [] [] [] []; unfold free_of; vm_compute;
    intros Hin; repeat (apply elem_of_cons in Hin as [Hin|Hin]; [discriminate Hin|]);
    by apply elem_of_nil in Hin.
Qed.


Lemma form_encode_free (sep : ascii) (s : string) :
  sep = "&"%char ∨ sep = "="%char → free_of sep (form_encode s).
Proof. intros Hsep. apply encode_with_free. intros c. by apply form_byte_free. Qed.

Lemma params_component_split (p : string * string) :
  free_of "&" (params_component p)
  ∧ split_on "=" (params_component p) = [form_encode (fst p); form_encode (snd p)].
Proof.
  unfold params_component. split.
  - apply free_of_app. split; [apply form_encode_free; by left|].
    apply free_of_app. split; [|apply form_encode_free; by left].
    unfold free_of. simpl. rewrite not_elem_of_cons. split; [done|apply not_elem_of_nil].
  - change ("=" +:+ ?t) with (String "=" t).
    rewrite split_on_app by (apply form_encode_free; by right).
    f_equal. apply split_on_free, form_encode_free. by right.
Qed.

Lemma buildParams_eq (st : State) :
  buildParams st
  = [ ("page", String_of_number (page st));
      (if truthy_string (trim (query st))
       then (search_param (field st), trim (query st))
       else ("q", "")) ]
    ++ filter_params st
    ++ [ ("fields", "key,title,author_name,cover_i,first_publish_year,ebook_access,has_fulltext,language,edition_count,subject") ].
Proof.
  assert (String.concat "," fields
          = "key,title,author_name,cover_i,first_publish_year,ebook_access,has_fulltext,language,edition_count,subject")
    as <- by reflexivity.
  unfold filter_params. params_open st. generalize (trim (query st)). intros t.
  destruct (truthy_string t); params_cases st; reflexivity.
Qed.


(** X7. The parameters [buildUrl] serializes are, in this order: [page]; one
    search parameter ([q] with an empty value for a blank query, else the one
    the field control selects with the trimmed query); [has_fulltext=true]
    when the ebook-only flag is set; [language] when a language is chosen;
    [fields]. No name occurs twice. *)
Theorem buildParams_shape (st : State) :
  buildParams st
  = [ ("page", String_of_number (page st));
      (if truthy_string (trim (query st))
       then (search_param (field st), trim (query st))
       else ("q", "")) ]
    ++ filter_params st
    ++ [ ("fields", "key,title,author_name,cover_i,first_publish_year,ebook_access,has_fulltext,language,edition_count,subject") ]
  ∧ NoDup (map fst (buildParams st)).
Proof.
  assert (String.concat "," fields
          = "key,title,author_name,cover_i,first_publish_year,ebook_access,has_fulltext,language,edition_count,subject")
    as <- by reflexivity.
  unfold filter_params. params_open st. generalize (trim (query st)). intros t.
  destruct (truthy_string t); params_cases st; simpl; (split; [reflexivity|compute_done]).
Qed.

(** X8. For a blank query the field control is ignored: the search parameter
    is [q] with an empty value, and none of [title], [author], [subject], [isbn]
    is set. *)
Theorem buildUrl_blank_query (st : State) :
  trim (query st) = "" →
  params_get "q" (buildParams st) = Some ""
  ∧ ∀ name, name ∈ ["title"; "author"; "subject"; "isbn"] →
            params_get name (buildParams st) = None.
Proof.
  intros Hq. rewrite buildParams_eq, Hq. unfold filter_params.
  split.
  - by destruct (ebookOnly st), (truthy_string (lang st)).
  - intros name Hin.
    repeat (apply elem_of_cons in Hin as [->|Hin];
            [by destruct (ebookOnly st), (truthy_string (lang st))|]).
    by apply elem_of_nil in Hin.
Qed.

Lemma buildUrl_blank_query_witness :
  params_get "q" (buildParams (state "   " "author" false "eng" 1)) = Some ""
  ∧ params_get "author" (buildParams (state "   " "author" false "eng" 1)) = None.
Proof.
  destruct (buildUrl_blank_query (state "   " "author" false "eng" 1)) as [Hq Hnone].
  - vm_compute. reflexivity.
  - split; [exact Hq|]. apply Hnone. compute_done.
Defined.

(** X9. The URL depends on the query only through its trimmed value: two
    states whose queries differ in surrounding white space only, and that
    agree on the field, the filters and the page, give the same URL. *)
Theorem buildUrl_ignores_padding (a b : State) :
  trim (query a) = trim (query b) →
  field a = field b → ebookOnly a = ebookOnly b → lang a = lang b → page a = page b →
  buildUrl a = buildUrl b.
Proof.
  intros Hq Hf He Hl Hp. unfold buildUrl, buildParams. by rewrite Hq, Hf, He, Hl, Hp.
Qed.

Lemma buildUrl_ignores_padding_witness :
  buildUrl (state "  the hobbit " "title" true "eng" 2)
  = buildUrl (state "the hobbit" "title" true "eng" 2).
Proof.
  apply buildUrl_ignores_padding; [vm_compute|..]; reflexivity.
Defined.

(** X10. The text of the controls cannot add a parameter to the request:
    splitting the serialized parameters at "&" gives one piece per parameter
    (between three and five of them), and splitting a piece at "=" gives the
    encoded name and the encoded value. *)
Theorem buildUrl_parameters_separate (st : State) :
  buildUrl st = "https://openlibrary.org/search.json?" +:+ params_toString (buildParams st)
  ∧ split_on "&" (params_toString (buildParams st)) = map params_component (buildParams st)
  ∧ Forall (λ p, split_on "=" (params_component p) = [form_encode (fst p); form_encode (snd p)])
           (buildParams st)
  ∧ (3 ≤ length (buildParams st) ≤ 5)%nat.
Proof.
  split; [reflexivity|]. split; [|split].
  - unfold params_toString. apply split_on_concat.
    + by rewrite buildParams_eq.
    + apply Forall_fmap, Forall_forall. intros p _. apply params_component_split.
  - apply Forall_forall. intros p _. apply params_component_split.
  - rewrite buildParams_eq. unfold filter_params.
    destruct (ebookOnly st), (truthy_string (lang st)); simpl; lia.
Qed.

End QueryFacts.

(* ================================================================== *)
(** * The query builder, read off the URL *)
(* ================================================================== *)

Module QueryText.
Import Platform Model BookFinder Codec Notions PlatformFacts QueryBuilder QueryFacts.
















End QueryText.

(* ================================================================== *)
(** * More on the saved list *)
(* ================================================================== *)

Module SavedListFacts.
Import Platform Model BookFinder Codec Notions SavedFacts.

Lemma isSaved_true (st : State) (b : book) :
  isSaved st b = true ↔ ∃ e, e ∈ saved st ∧ key e = key b.
Proof.
  unfold isSaved. rewrite existsb_exists. split.
  - intros (e & Hin & He). exists e. split; [by apply list_elem_of_In|].
    by apply String.eqb_eq.
  - intros (e & Hin & He). exists e. split; [by apply list_elem_of_In|].
    by apply String.eqb_eq.
Qed.

Lemma bool_eq_iff (x y : bool) : (x = true ↔ y = true) → x = y.
Proof. destruct x, y; intuition congruence. Qed.

Lemma elem_of_others (id : string) (l : list book) (e : book) :
  e ∈ others id l ↔ e ∈ l ∧ key e ≠ id.
Proof. unfold others. rewrite list_elem_of_filter. tauto. Qed.

Lemma member_dec (id : string) (l : list book) :
  (∃ e, e ∈ l ∧ key e = id) ∨ ¬ (∃ e, e ∈ l ∧ key e = id).
Proof.
  destruct (List.find (λ b, String.eqb (key b) id) l) as [e|] eqn:Hfind.
  - left. apply find_some in Hfind as [Hin He]. exists e.
    split; [by apply list_elem_of_In|by apply String.eqb_eq].
  - right. intros (e & Hin & He).
    apply list_elem_of_In in Hin. apply (find_none _ _ Hfind) in Hin.
    by apply String.eqb_neq in Hin.
Qed.

Lemma others_keys_NoDup (id : string) (l : list book) :
  NoDup (map key l) → NoDup (map key (others id l)).
Proof.
  unfold others. induction l as [|x l IH]; simpl; [done|].
  rewrite NoDup_cons. intros [Hx Hl]. rewrite filter_cons. case_decide; [|by apply IH].
  simpl. apply NoDup_cons. split; [|by apply IH].
  intros Hin. apply Hx. apply list_elem_of_fmap in Hin as (e & He & Hin).
  apply list_elem_of_filter in Hin as [_ Hin]. apply list_elem_of_fmap. by exists e.
Qed.

(** X11. After [toggleSave(b)] the Save button of [b] shows the opposite of
    what it showed ([isSaved] is flipped for [b]), and the buttons of records
    with another key show what they showed. *)
Theorem toggleSave_flips_isSaved `{codec : JSON (list book)}
    (st : State) (w : World SearchData) (b : book) :
  ∃ st' w',
    toggleSave b (st, w) = (Normal tt, (st', w'))
    ∧ isSaved st' b = negb (isSaved st b)
    ∧ ∀ c, key c ≠ key b → isSaved st' c = isSaved st c.
Proof.
  eexists _, _. split; [apply toggleSave_run|]. split.
  - destruct (member_dec (key b) (saved st)) as [Hmem|Hfresh].
    + rewrite (proj2 (isSaved_true st b) Hmem). simpl.
      apply not_true_is_false. rewrite isSaved_true. simpl.
      rewrite (toggle_member _ _ Hmem). intros (e & Hin & He).
      by apply elem_of_others in Hin as [_ Hne].
    + assert (isSaved st b = false) as ->.
      { apply not_true_is_false. by rewrite isSaved_true. }
      simpl. apply isSaved_true. simpl. rewrite (toggle_fresh _ _ Hfresh).
      exists b. split; [|done]. apply elem_of_app. right. apply list_elem_of_here.
  - intros c Hc. apply bool_eq_iff. rewrite !isSaved_true. simpl.
    destruct (member_dec (key b) (saved st)) as [Hmem|Hfresh].
    + rewrite (toggle_member _ _ Hmem). split.
      * intros (e & Hin & He). apply elem_of_others in Hin as [Hin _]. by exists e.
      * intros (e & Hin & He). exists e. split; [|done].
        apply elem_of_others. split; [done|]. congruence.
    + rewrite (toggle_fresh _ _ Hfresh). split.
      * intros (e & Hin & He). apply elem_of_app in Hin as [Hin|Hin]; [by exists e|].
        apply list_elem_of_singleton in Hin as ->. congruence.
      * intros (e & Hin & He). exists e. split; [|done]. apply elem_of_app. by left.
Qed.

(** X12. [toggleSave] keeps the keys of the saved list distinct: on a list
    without repeated keys it gives one without repeated keys, one entry
    shorter when the book was saved and one entry longer when it was not. *)
Theorem toggleSave_keeps_keys_distinct `{codec : JSON (list book)}
    (st : State) (w : World SearchData) (b : book) :
  NoDup (map key (saved st)) →
  ∃ st' w',
    toggleSave b (st, w) = (Normal tt, (st', w'))
    ∧ NoDup (map key (saved st'))
    ∧ (isSaved st b = true → S (length (saved st')) = length (saved st))
    ∧ (isSaved st b = false → length (saved st') = S (length (saved st))).
Proof.
  intros Hnd. eexists _, _. split; [apply toggleSave_run|]. simpl.
  destruct (member_dec (key b) (saved st)) as [Hmem|Hfresh].
  - rewrite (toggle_member _ _ Hmem). split; [by apply others_keys_NoDup|]. split.
    + intros _. destruct Hmem as (e & Hin & He).
      destruct (list_elem_of_split _ _ Hin) as (l1 & l2 & Hsplit).
      rewrite Hsplit in Hnd |- *. rewrite <- He.
      destruct (others_split _ _ _ Hnd) as [-> _].
      rewrite !length_app. simpl. lia.
    + intros Hno. apply (proj2 (isSaved_true st b)) in Hmem. congruence.
  - rewrite (toggle_fresh _ _ Hfresh). split; [|split].
    + rewrite map_app. apply NoDup_app. split; [done|]. split.
      * intros k Hk Hb. simpl in Hb. apply list_elem_of_singleton in Hb as ->.
        by apply key_not_in in Hfresh.
      * simpl. apply NoDup_singleton.
    + intros Hyes. by apply isSaved_true in Hyes.
    + intros _. rewrite length_app. simpl. lia.
Qed.

Lemma toggleSave_keeps_keys_distinct_witness :
  ∃ st' w',
    toggleSave (codec := books_json) hobbit
      (fresh [silmarillion; hobbit], world (empty_store 1000) [])
    = (Normal tt, (st', w'))
    ∧ NoDup (map key (saved st'))
    ∧ S (length (saved st')) = 2%nat.
Proof.
  destruct (toggleSave_keeps_keys_distinct (codec := books_json)
              (fresh [silmarillion; hobbit]) (world (empty_store 1000) []) hobbit)
    as (st' & w' & Hrun & Hnd & Hless & _).
  - compute_done.
  - exists st', w'. split; [exact Hrun|]. split; [exact Hnd|]. by apply Hless.
Defined.

Lemma written_frame `{codec : JSON (list book)} (value : list book) (w : World SearchData) :
  network (written value w) = network w
  ∧ requests (written value w) = requests w
  ∧ quota (storage (written value w)) = quota (storage w)
  ∧ ∀ k, k ≠ "bookfinder.saved" →
         getItem k (storage (written value w)) = getItem k (storage w).
Proof.
  unfold written, setItem, storageKey, getItem.
  destruct (_ <=? _)%nat; simpl; [|done].
  repeat split. intros k Hk. by apply lookup_insert_ne.
Qed.

Lemma setItem_again (k v : string) (s s' : Storage) :
  setItem k v s = Some s' → setItem k v s' = Some s'.
Proof.
  unfold setItem. destruct (_ <=? _)%nat eqn:Hfits; [|done].
  intros [= <-]. simpl. by rewrite insert_insert_eq, Hfits.
Qed.

(** X13. [toggleSave] changes nothing but the saved list and its entry in
    the store: every other state variable, the network, the request log, the
    quota and the entries of the store under other keys are as they were. *)
Theorem toggleSave_frame `{codec : JSON (list book)}
    (st : State) (w : World SearchData) (b : book) :
  ∃ st' w',
    toggleSave b (st, w) = (Normal tt, (st', w'))
    ∧ query st' = query st ∧ field st' = field st ∧ ebookOnly st' = ebookOnly st
    ∧ lang st' = lang st ∧ sort st' = sort st ∧ books st' = books st
    ∧ total st' = total st ∧ page st' = page st ∧ loading st' = loading st
    ∧ error st' = error st ∧ selected st' = selected st
    ∧ network w' = network w ∧ requests w' = requests w
    ∧ quota (storage w') = quota (storage w)
    ∧ ∀ k, k ≠ "bookfinder.saved" → getItem k (storage w') = getItem k (storage w).
Proof.
  eexists _, _. split; [apply toggleSave_run|]. simpl.
  destruct (written_frame (toggle b (saved st)) w) as (? & ? & ? & ?).
  by repeat split.
Qed.

(** X14. A saved list survives a reload: when the write of [toggleSave]
    succeeds and the codec reads back what it wrote, the next first render
    starts with the same saved list and leaves the store as it is. *)
Theorem saved_list_survives_reload `{codec : JSON (list book)}
    (st any : State) (w : World SearchData) (b : book) :
  is_Some (setItem "bookfinder.saved" (JSON_stringify (toggle b (saved st))) (storage w)) →
  JSON_parse (JSON_stringify (toggle b (saved st))) = Some (toggle b (saved st)) →
  ∃ st1 w1 st2 w2,
    toggleSave b (st, w) = (Normal tt, (st1, w1))
    ∧ mount (any, w1) = (Normal tt, (st2, w2))
    ∧ saved st2 = saved st1
    ∧ storage w2 = storage w1.
Proof.
  intros [s' Hset] Hback. fold storageKey in Hset.
  destruct (mount_run any (written (toggle b (saved st)) w)) as (st2 & Hmount & Hsaved).
  eexists _, _, st2, _. split; [apply toggleSave_run|]. split; [exact Hmount|].
  assert (hydrated (storage (written (toggle b (saved st)) w)) = toggle b (saved st)) as Hhyd.
  { unfold hydrated. rewrite (written_Some _ _ _ Hset).
    destruct (JSON_stringify (toggle b (saved st))) eqn:Htext.
    - by rewrite JSON_parse_empty in Hback.
    - simpl. by rewrite Hback. }
  split; [by rewrite Hsaved, Hhyd|].
  rewrite Hhyd. unfold written. rewrite Hset. simpl.
  by rewrite (setItem_again _ _ _ _ Hset).
Qed.

Lemma saved_list_survives_reload_witness :
  ∃ st1 w1 st2 w2,
    toggleSave (codec := books_json) hobbit (fresh [undated], world (empty_store 1000) [])
    = (Normal tt, (st1, w1))
    ∧ mount (codec := books_json) (paging 40 2, w1) = (Normal tt, (st2, w2))
    ∧ saved st2 = saved st1
    ∧ storage w2 = storage w1.
Proof.
  apply (saved_list_survives_reload (codec := books_json)).
  - vm_compute. eexists. reflexivity.
  - vm_compute. reflexivity.
Defined.

(** X15. The first render writes the saved list it starts with back to the
    store: an entry that cannot be parsed is replaced by the JSON text of the
    empty list, when that write succeeds. *)
Theorem mount_replaces_unparsable `{codec : JSON (list book)}
    (st : State) (w : World SearchData) (text : string) :
  getItem "bookfinder.saved" (storage w) = Some text →
  JSON_parse text = None →
  is_Some (setItem "bookfinder.saved" (JSON_stringify []) (storage w)) →
  ∃ st' w',
    mount (st, w) = (Normal tt, (st', w'))
    ∧ saved st' = []
    ∧ getItem "bookfinder.saved" (storage w') = Some (JSON_stringify []).
Proof.
  intros Hget Hparse [s' Hset].
  destruct (mount_run st w) as (st' & Hmount & Hsaved).
  assert (hydrated (storage w) = []) as Hhyd.
  { unfold hydrated, storageKey. rewrite Hget, Hparse. by destruct (truthy_string text). }
  rewrite Hhyd in Hmount, Hsaved.
  exists st', (written [] w). split; [done|]. split; [done|].
  by eapply written_Some.
Qed.

Lemma mount_replaces_unparsable_witness :
  ∃ st' w',
    mount (codec := books_json)
      (fresh [], world {| items := {[ "bookfinder.saved" := "[{oops" ]}; quota := 1000 |} [])
    = (Normal tt, (st', w'))
    ∧ saved st' = []
    ∧ getItem "bookfinder.saved" (storage w') = Some "[]".
Proof.
  apply (mount_replaces_unparsable (codec := books_json) _ _ "[{oops").
  - apply lookup_singleton_eq.
  - vm_compute. reflexivity.
  - vm_compute. eexists. reflexivity.
Defined.

End SavedListFacts.

(* ================================================================== *)
(** * More on the basic component *)
(* ================================================================== *)

Module BasicFacts.
Import Platform Model Codec Notions PlatformFacts FetchCycle QueryFacts.
Import BasicFinder.

Lemma searchBooks_blank (st : State) (w : World SearchData) :
  trim (query st) = "" → searchBooks (st, w) = (Normal tt, (st, w)).
Proof. intros Hq. run. simpl. by rewrite Hq. Qed.

Lemma searchBooks_records (st : State) (w : World SearchData) res rest data ds :
  trim (query st) ≠ "" →
  network w = Resolves res :: rest → json res = Some data → docs data = Some ds →
  searchBooks (st, w)
  = (Normal tt,
     ({| query := query st; books := ds; loading := false;
         error := if Nat.eqb (length ds) 0 then "No books found." else "" |},
      after_request ("https://openlibrary.org/search.json?q=" +:+ encodeURIComponent (query st)) w)).
Proof.
  intros Hq Hnet Hjson Hdocs. run. simpl.
  destruct (trim (query st)); [done|]. simpl.
  rewrite Hnet. simpl. rewrite Hjson. simpl. rewrite Hdocs. simpl.
  by destruct (Nat.eqb _ 0).
Qed.

Lemma searchBooks_no_records (st : State) (w : World SearchData) res rest :
  trim (query st) ≠ "" →
  network w = Resolves res :: rest →
  json res = None ∨ (∃ data, json res = Some data ∧ docs data = None) →
  searchBooks (st, w)
  = (Normal tt,
     ({| query := query st; books := books st; loading := false;
         error := "Network error. Please try again." |},
      after_request ("https://openlibrary.org/search.json?q=" +:+ encodeURIComponent (query st)) w)).
Proof.
  intros Hq Hnet Hbad. run. simpl.
  destruct (trim (query st)); [done|]. simpl.
  rewrite Hnet. simpl. destruct Hbad as [->|(data & -> & Hdocs)]; simpl; [done|].
  by rewrite Hdocs.
Qed.

(** X16. With a blank query [searchBooks] does nothing at all: no request,
    and the results, the message and the loading flag stay as they are. *)
Theorem searchBooks_blank_query (st : State) (w : World SearchData) :
  trim (query st) = "" → searchBooks (st, w) = (Normal tt, (st, w)).
Proof. apply searchBooks_blank. Qed.

Lemma searchBooks_blank_query_witness :
  searchBooks (basic "  " [hobbit] "No books found.", world (empty_store 0) [found [silmarillion] 1])
  = (Normal tt, (basic "  " [hobbit] "No books found.",
                 world (empty_store 0) [found [silmarillion] 1])).
Proof. apply searchBooks_blank_query. vm_compute. reflexivity. Defined.



(** X18. When the request of the basic component fails in any way (the call
    rejects, the body is not JSON, or the body has no records), the message
    is "Network error. Please try again." and the results shown before stay. *)
Theorem searchBooks_failure_keeps_results (st : State) (w : World SearchData) :
  trim (query st) ≠ "" →
  request_throws w
  ∨ (∃ res rest, network w = Resolves res :: rest
                 ∧ (json res = None ∨ ∃ data, json res = Some data ∧ docs data = None)) →
  ∃ st' w',
    searchBooks (st, w) = (Normal tt, (st', w'))
    ∧ books st' = books st
    ∧ error st' = "Network error. Please try again."
    ∧ loading st' = false.
Proof.
  intros Hq [Hfail|(res & rest & Hnet & Hbad)]; eexists _, _.
  - split; [by apply searchBooks_failure|]. done.
  - split; [by eapply searchBooks_no_records|]. done.
Qed.

Lemma searchBooks_failure_keeps_results_witness :
  ∃ st' w',
    searchBooks (basic "dune" [hobbit] "", world (empty_store 0) [Resolves no_docs])
    = (Normal tt, (st', w'))
    ∧ books st' = [hobbit]
    ∧ error st' = "Network error. Please try again."
    ∧ loading st' = false.
Proof.
  apply searchBooks_failure_keeps_results; [vm_compute; discriminate|].
  right. exists no_docs, []. split; [reflexivity|]. right. eexists. by split.
Defined.

Lemma searchBooks_run (st : State) (w : World SearchData) :
  ∃ st' w',
    searchBooks (st, w) = (Normal tt, (st', w'))
    ∧ query st' = query st
    ∧ storage w' = storage w
    ∧ (trim (query st) = "" → requests w' = requests w ∧ network w' = network w)
    ∧ (trim (query st) ≠ "" →
       requests w'
       = requests w ++ ["https://openlibrary.org/search.json?q=" +:+ encodeURIComponent (query st)]
       ∧ network w' = tail (network w)
       ∧ loading st' = false).
Proof.
  destruct (decide (trim (query st) = "")) as [Hq|Hq].
  - exists st, w. split; [by apply searchBooks_blank|]. by repeat split.
  - assert (∃ st', searchBooks (st, w)
                   = (Normal tt, (st', after_request
                        ("https://openlibrary.org/search.json?q=" +:+ encodeURIComponent (query st)) w))
                   ∧ query st' = query st ∧ loading st' = false) as (st' & Hrun & Hquery & Hload).
    { destruct (network w) as [|[|res] rest] eqn:Hnet.
      - eexists. split; [apply searchBooks_failure; [done|]|done].
        unfold request_throws. by rewrite Hnet.
      - eexists. split; [apply searchBooks_failure; [done|]|done].
        unfold request_throws. by rewrite Hnet.
      - destruct (json res) as [data|] eqn:Hjson.
        + destruct (docs data) as [ds|] eqn:Hdocs.
          * eexists. split; [by eapply searchBooks_records|done].
          * eexists. split; [eapply searchBooks_no_records; eauto|done].
        + eexists. split; [eapply searchBooks_no_records; eauto|done]. }
    exists st', (after_request
                   ("https://openlibrary.org/search.json?q=" +:+ encodeURIComponent (query st)) w).
    split; [done|]. by repeat split.
Qed.

Lemma searchBooks_full_agrees (st : State) (w : World SearchData) :
  BasicFinderFull.has_lone_surrogate (query st) = false →
  BasicFinderFull.searchBooks (st, w) = searchBooks (st, w).
Proof.
  intros Hwell. unfold BasicFinderFull.searchBooks, BasicFinderFull.encodeURIComponent.
  run. simpl. destruct (truthy_string (trim (query st))); simpl; [|done].
  by rewrite Hwell.
Qed.

Lemma searchBooks_full_malformed (st : State) (w : World SearchData) :
  trim (query st) ≠ "" → BasicFinderFull.has_lone_surrogate (query st) = true →
  BasicFinderFull.searchBooks (st, w)
  = (Normal tt,
     ({| query := query st; books := books st; loading := false;
         error := "Network error. Please try again." |}, w)).
Proof.
  intros Hq Hbad. unfold BasicFinderFull.searchBooks, BasicFinderFull.encodeURIComponent.
  run. simpl. destruct (trim (query st)); [done|]. simpl. by rewrite Hbad.
Qed.

(** X19. Whatever the state and the network, [searchBooks] completes
    without an exception and touches neither the query nor the store. It
    makes no request for a blank query; for a query with an unpaired surrogate
    it makes none either, [encodeURIComponent] throwing inside the [try]: the
    message is "Network error. Please try again." and the results stay. For
    every other query it makes exactly one request. *)
Theorem searchBooks_completes (st : State) (w : World SearchData) :
  ∃ st' w',
    BasicFinderFull.searchBooks (st, w) = (Normal tt, (st', w'))
    ∧ query st' = query st
    ∧ storage w' = storage w
    ∧ (trim (query st) = "" → st' = st ∧ w' = w)
    ∧ (trim (query st) ≠ "" → BasicFinderFull.has_lone_surrogate (query st) = true →
       w' = w ∧ books st' = books st
       ∧ error st' = "Network error. Please try again." ∧ loading st' = false)
    ∧ (trim (query st) ≠ "" → BasicFinderFull.has_lone_surrogate (query st) = false →
       requests w'
       = requests w ++ ["https://openlibrary.org/search.json?q="
                        +:+ Platform.encodeURIComponent (query st)]
       ∧ network w' = tail (network w)
       ∧ loading st' = false).
Proof.
  destruct (BasicFinderFull.has_lone_surrogate (query st)) eqn:Hsurrogate.
  - destruct (decide (trim (query st) = "")) as [Hq|Hq].
    + exists st, w. split.
      * unfold BasicFinderFull.searchBooks, get_state, mbind, Eff_bind. simpl. by rewrite Hq.
      * by repeat split.
    + eexists _, w. split; [by apply searchBooks_full_malformed|]. simpl.
      by repeat split.
  - destruct (searchBooks_run st w) as (st' & w' & Hrun & Hquery & Hstore & Hblank & Hone).
    exists st', w'. split; [by rewrite searchBooks_full_agrees|].
    split; [done|]. split; [done|]. split; [|split; [done|]].
    + intros Hq. rewrite searchBooks_blank in Hrun by done.
      injection Hrun as <- <-. done.
    + intros Hq _. by apply Hone.
Qed.

Lemma searchBooks_completes_witness :
  ∃ st' w',
    BasicFinderFull.searchBooks (basic unpaired [hobbit] "", world (empty_store 0) [found [hobbit] 1])
    = (Normal tt, (st', w'))
    ∧ w' = world (empty_store 0) [found [hobbit] 1]
    ∧ books st' = [hobbit]
    ∧ error st' = "Network error. Please try again."
    ∧ loading st' = false.
Proof.
  destruct (searchBooks_completes (basic unpaired [hobbit] "")
              (world (empty_store 0) [found [hobbit] 1]))
    as (st' & w' & Hrun & _ & _ & _ & Hbad & _).
  exists st', w'. split; [exact Hrun|]. apply Hbad; [vm_compute; discriminate|reflexivity].
Defined.



End BasicFacts.

(* ================================================================== *)
(** * More on pagination *)
(* ================================================================== *)

Module PaginationFacts.
Import Platform Model BookFinder Codec Notions PlatformFacts Pagination.

Lemma totalPages_bounds (st : State) :
  1 ≤ totalPages st
  ∧ total st ≤ 20 * totalPages st
  ∧ (0 < total st → 20 * (totalPages st - 1) < total st)
  ∧ (total st ≤ 20 → totalPages st = 1).
Proof.
  unfold totalPages, pageSize.
  pose proof (Math_ceil_div_spec (total st) 20 ltac:(lia)) as Hceil.
  revert Hceil. generalize (Math_ceil_div (total st) 20). lia.
Qed.

Lemma same_page (st : State) (p : Z) :
  p = page st →
  {| query := query st; field := field st; ebookOnly := ebookOnly st; lang := lang st;
     sort := sort st; books := books st; total := total st; page := p;
     loading := loading st; error := error st; selected := selected st;
     saved := saved st |} = st.
Proof. intros ->. by destruct st. Qed.

(** X21. The pages cover the results: [totalPages] pages of 20 hold at
    least [total] results, and when there is a result the last page is not
    empty. The pagination bar, drawn when [totalPages > 1], is drawn exactly
    when there are more than 20 results. *)
Theorem totalPages_covers (st : State) :
  total st ≤ 20 * totalPages st
  ∧ (0 < total st → 20 * (totalPages st - 1) < total st)
  ∧ (1 < totalPages st ↔ 20 < total st).
Proof. pose proof (totalPages_bounds st). lia. Qed.

(** X22. Within the pages, Prev undoes Next and Next undoes Prev: from a
    page before the last one, Next then Prev gives the state back; from a page
    after the first one and not past the last, Prev then Next gives it back. *)
Theorem prev_next_inverse (st : State) (w : World SearchData) :
  (1 ≤ page st < totalPages st →
   ∃ next, onNext (st, w) = (Normal tt, (next, w))
           ∧ page next = page st + 1
           ∧ onPrev (next, w) = (Normal tt, (st, w)))
  ∧ (1 < page st ≤ totalPages st →
     ∃ prev, onPrev (st, w) = (Normal tt, (prev, w))
             ∧ page prev = page st - 1
             ∧ onNext (prev, w) = (Normal tt, (st, w))).
Proof.
  split; intros Hp.
  - eexists. split; [reflexivity|]. simpl. unfold nextPage.
    split; [lia|]. unfold onPrev, setPage, set_state. simpl. do 2 f_equal. f_equal.
    apply same_page. unfold prevPage. lia.
  - eexists. split; [reflexivity|]. simpl. unfold prevPage.
    split; [lia|].
    unfold onNext, setPage, set_state, get_state, mbind, Eff_bind. simpl.
    do 2 f_equal. f_equal. apply same_page.
    unfold nextPage, totalPages in *. simpl. lia.
Qed.

Lemma prev_next_inverse_witness :
  (∃ next, onNext (paging 100 2, world (empty_store 0) []) = (Normal tt, (next, world (empty_store 0) []))
           ∧ page next = 3
           ∧ onPrev (next, world (empty_store 0) [])
             = (Normal tt, (paging 100 2, world (empty_store 0) [])))
  ∧ (∃ prev, onPrev (paging 100 5, world (empty_store 0) []) = (Normal tt, (prev, world (empty_store 0) []))
             ∧ page prev = 4
             ∧ onNext (prev, world (empty_store 0) [])
               = (Normal tt, (paging 100 5, world (empty_store 0) []))).
Proof.
  split.
  - apply (prev_next_inverse (paging 100 2) (world (empty_store 0) [])). by vm_compute.
  - apply (prev_next_inverse (paging 100 5) (world (empty_store 0) [])). by vm_compute.
Defined.

(** X23. The buttons drawn as disabled do nothing within the pages: on page
    1 Prev leaves the state as it is, and on the last page Next does. From a
    page past the last one, Next brings the page back to the last one. *)
Theorem disabled_buttons (st : State) (w : World SearchData) :
  (page st = 1 → onPrev (st, w) = (Normal tt, (st, w)))
  ∧ (page st = totalPages st → onNext (st, w) = (Normal tt, (st, w)))
  ∧ (totalPages st < page st →
     ∃ st', onNext (st, w) = (Normal tt, (st', w)) ∧ page st' = totalPages st).
Proof.
  split; [|split]; intros Hp.
  - unfold onPrev, setPage, set_state. simpl. do 2 f_equal. f_equal.
    apply same_page. unfold prevPage. lia.
  - unfold onNext, setPage, set_state, get_state, mbind, Eff_bind. simpl.
    do 2 f_equal. f_equal. apply same_page. unfold nextPage. lia.
  - eexists. split; [reflexivity|]. simpl. unfold nextPage. lia.
Qed.

Lemma disabled_buttons_witness :
  onPrev (paging 100 1, world (empty_store 0) [])
  = (Normal tt, (paging 100 1, world (empty_store 0) []))
  ∧ onNext (paging 100 5, world (empty_store 0) [])
    = (Normal tt, (paging 100 5, world (empty_store 0) []))
  ∧ ∃ st', onNext (paging 30 5, world (empty_store 0) [])
           = (Normal tt, (st', world (empty_store 0) []))
           ∧ page st' = 2.
Proof.
  destruct (disabled_buttons (paging 100 1) (world (empty_store 0) [])) as (Hfirst & _).
  destruct (disabled_buttons (paging 100 5) (world (empty_store 0) [])) as (_ & Hlast & _).
  destruct (disabled_buttons (paging 30 5) (world (empty_store 0) [])) as (_ & _ & Hpast).
  split; [by apply Hfirst|]. split; [by apply Hlast|].
  destruct Hpast as (st' & Hrun & Hpage); [by vm_compute|].
  exists st'. split; [exact Hrun|]. rewrite Hpage. by vm_compute.
Defined.

End PaginationFacts.

(* ================================================================== *)
(** * The debounced search under events *)
(* ================================================================== *)

Module EventFacts.
Import Platform Model BookFinder Events Codec Notions PlatformFacts FetchCycle FetchFacts QueryFacts.

Lemma search_deps_inv (a b : State) :
  search_deps a = search_deps b →
  query a = query b ∧ field a = field b ∧ ebookOnly a = ebookOnly b
  ∧ lang a = lang b ∧ sort a = sort b ∧ page a = page b.
Proof. unfold search_deps. by intros [= -> -> -> -> -> ->]. Qed.

Lemma search_reset_deps (a b : State) :
  search_deps a = search_deps b → reset_deps a = reset_deps b.
Proof.
  intros H. apply search_deps_inv in H as (Hq & Hf & He & Hl & Hs & _).
  unfold reset_deps. by rewrite Hq, Hf, He, Hl, Hs.
Qed.

Lemma same_but_results_deps (a b : State) :
  same_but_results a b → search_deps a = search_deps b.
Proof.
  intros (Hq & Hf & He & Hl & Hs & Hp & _). unfold search_deps.
  by rewrite Hq, Hf, He, Hl, Hs, Hp.
Qed.

Lemma commit_same_deps (before after : State) (w : World SearchData) pending :
  search_deps before = search_deps after →
  commit before after w pending = {| shown := after; browser := w; timer := pending |}.
Proof.
  intros Hdeps. unfold commit.
  by rewrite decide_True, decide_True by (done || by apply search_reset_deps).
Qed.

Lemma commit_timer_current (before after : State) (w : World SearchData) pending :
  (∀ r, pending = Some r → search_deps r = search_deps before) →
  timer_current (commit before after w pending).
Proof.
  intros Hpending. unfold commit, timer_current.
  destruct (decide (search_deps before = search_deps after)) as [Hsame|Hdiff].
  - rewrite decide_True by (by apply search_reset_deps). simpl.
    intros r Hr. rewrite <- Hsame. by apply Hpending.
  - destruct (decide (reset_deps before = reset_deps after)); simpl.
    + by intros r [= <-].
    + destruct (decide (search_deps after = _)) as [Hpage|Hpage]; simpl.
      * by intros r [= <-].
      * by intros r [= <-].
Qed.

Lemma fetchBooks_of_current (r st : State) (w : World SearchData) :
  search_deps r = search_deps st → fetchBooks_of r (st, w) = fetchBooks (st, w).
Proof.
  intros Hdeps. apply search_deps_inv in Hdeps as (Hq & Hf & He & Hl & Hs & Hp).
  assert (buildUrl r = buildUrl st) as Hurl by (by apply buildUrl_same_request).
  unfold fetchBooks_of. run. simpl. rewrite Hurl, Hs. reflexivity.
Qed.

Lemma debounced_of_current (r st : State) (w : World SearchData) :
  search_deps r = search_deps st → debounced_of r (st, w) = debounced (st, w).
Proof.
  intros Hdeps. pose proof (search_deps_inv _ _ Hdeps) as (Hq & _).
  unfold debounced_of, debounced, get_state, mbind, Eff_bind. simpl. rewrite Hq.
  destruct (truthy_string (trim (query st))); simpl; [|done].
  by apply fetchBooks_of_current.
Qed.

(** What the debounced callback does on the current state. *)
Lemma debounced_run (st : State) (w : World SearchData) :
  ∃ st' w',
    debounced (st, w) = (Normal tt, (st', w'))
    ∧ same_but_results st' st
    ∧ storage w' = storage w
    ∧ (trim (query st) = "" → w' = w)
    ∧ (trim (query st) ≠ "" →
       fetchBooks (st, w) = (Normal tt, (st', w'))
       ∧ requests w' = requests w ++ [buildUrl st]
       ∧ network w' = tail (network w)).
Proof.
  destruct (decide (trim (query st) = "")) as [Hq|Hq].
  - eexists _, w. split.
    + unfold debounced, get_state, mbind, Eff_bind. simpl. rewrite Hq. simpl. run. simpl.
      reflexivity.
    + by repeat split.
  - destruct (fetchBooks_run st w) as (st' & Hrun & Hsame & _).
    exists st', (after_request (buildUrl st) w). split.
    + unfold debounced, get_state, mbind, Eff_bind. simpl.
      destruct (trim (query st)); [done|]. exact Hrun.
    + split; [done|]. split; [done|]. split; [done|]. intros _. by repeat split.
Qed.

Lemma step_timer_current (e : event) (app : App) :
  timer_current app → timer_current (step e app).
Proof.
  intros Hcur. unfold step. destruct (handler e (timer app) _) as [res [after w]].
  apply commit_timer_current. intros r Hr. destruct e; by apply Hcur.
Qed.

Lemma step_edit_browser (e : event) (app : App) :
  edits e → browser (step e app) = browser app.
Proof.
  intros He. unfold step, commit.
  destruct e; try done; simpl; repeat case_decide; reflexivity.
Qed.

Lemma step_timer_none (app : App) :
  timer app = None → step TimerFires app = app.
Proof.
  intros Hnone. unfold step. rewrite Hnone. simpl.
  rewrite commit_same_deps by done. destruct app. simpl in *. by rewrite Hnone.
Qed.

Lemma step_timer_some (app : App) (r : State) :
  timer_current app → timer app = Some r →
  ∀ st' w', debounced (shown app, browser app) = (Normal tt, (st', w')) →
            same_but_results st' (shown app) →
            step TimerFires app = {| shown := st'; browser := w'; timer := None |}.
Proof.
  intros Hcur Hr st' w' Hrun Hsame. unfold step. rewrite Hr. simpl.
  rewrite (debounced_of_current _ _ _ (Hcur r Hr)), Hrun.
  apply commit_same_deps. symmetry. by apply same_but_results_deps.
Qed.

Lemma steps_timer_current (es : list event) (app : App) :
  timer_current app → timer_current (steps es app).
Proof.
  revert app. induction es as [|e es IH]; intros app Hcur; [done|].
  simpl. apply IH. by apply step_timer_current.
Qed.

(** X24. Whatever the events, a pending debounce timer was set by a render
    whose search controls, sort order and page are those now shown: the timer
    never runs a stale search. *)
Theorem timer_stays_current (es : list event) (app : App) :
  timer_current app → timer_current (steps es app).
Proof. apply steps_timer_current. Qed.

Lemma timer_stays_current_witness :
  ∃ r,
    timer (steps [TypeQuery "dune"; ClickNext; PickSort "year_asc"; ClickSearch; PickLang "eng"]
             {| shown := paging 100 1; browser := world (empty_store 0) [found [hobbit] 100];
                timer := Some (paging 100 1) |})
    = Some r
    ∧ search_deps r
      = search_deps
          (shown (steps [TypeQuery "dune"; ClickNext; PickSort "year_asc"; ClickSearch;
                         PickLang "eng"]
                    {| shown := paging 100 1;
                       browser := world (empty_store 0) [found [hobbit] 100];
                       timer := Some (paging 100 1) |})).
Proof.
  eexists. split; [vm_compute; reflexivity|].
  apply (timer_stays_current
           [TypeQuery "dune"; ClickNext; PickSort "year_asc"; ClickSearch; PickLang "eng"]
           {| shown := paging 100 1; browser := world (empty_store 0) [found [hobbit] 100];
              timer := Some (paging 100 1) |}).
  - intros r [= <-]. reflexivity.
  - vm_compute. reflexivity.
Defined.

(** X25. When the timer fires it does what the callback does on the state
    now shown: the search of the current controls and page, for a query that
    is not blank; the reset, for a blank one. No timer is pending after. *)
Theorem timer_runs_current_search (app : App) (r : State) :
  timer_current app → timer app = Some r →
  ∃ st' w',
    debounced (shown app, browser app) = (Normal tt, (st', w'))
    ∧ step TimerFires app = {| shown := st'; browser := w'; timer := None |}
    ∧ (trim (query (shown app)) ≠ "" →
       requests w' = requests (browser app) ++ [buildUrl (shown app)]).
Proof.
  intros Hcur Hr.
  destruct (debounced_run (shown app) (browser app)) as (st' & w' & Hrun & Hsame & _ & _ & Hreq).
  exists st', w'. split; [done|]. split; [by eapply step_timer_some|].
  intros Hq. by destruct (Hreq Hq) as (_ & ? & _).
Qed.

Lemma timer_runs_current_search_witness :
  ∃ st' w',
    step TimerFires
      {| shown := showing "year_asc" [silmarillion] 1;
         browser := world (empty_store 0) [found [hobbit] 1];
         timer := Some (sorting "year_asc") |}
    = {| shown := st'; browser := w'; timer := None |}
    ∧ requests w' = [buildUrl (showing "year_asc" [silmarillion] 1)].
Proof.
  destruct (timer_runs_current_search
              {| shown := showing "year_asc" [silmarillion] 1;
                 browser := world (empty_store 0) [found [hobbit] 1];
                 timer := Some (sorting "year_asc") |} (sorting "year_asc"))
    as (st' & w' & _ & Hstep & Hreq).
  - intros r [= <-]. reflexivity.
  - reflexivity.
  - exists st', w'. split; [exact Hstep|]. apply Hreq. vm_compute. discriminate.
Defined.

Lemma step_enter (app : App) :
  ∃ st',
    fetchBooks (shown app, browser app)
    = (Normal tt, (st', after_request (buildUrl (shown app)) (browser app)))
    ∧ same_but_results st' (shown app)
    ∧ step PressEnter app
      = {| shown := st'; browser := after_request (buildUrl (shown app)) (browser app);
           timer := timer app |}.
Proof.
  destruct (fetchBooks_run (shown app) (browser app)) as (st' & Hrun & Hsame & _).
  exists st'. split; [done|]. split; [done|].
  unfold step. simpl. rewrite Hrun. apply commit_same_deps.
  symmetry. by apply same_but_results_deps.
Qed.

Lemma step_click_search (app : App) :
  (loading (shown app) = false → step ClickSearch app = step PressEnter app)
  ∧ (loading (shown app) = true → step ClickSearch app = app).
Proof.
  split; intros Hload; unfold step; simpl; unfold get_state, mbind, Eff_bind; simpl;
    rewrite Hload; [done|].
  simpl. rewrite commit_same_deps by done. by destruct app.
Qed.

Lemma steps_edit_browser (es : list event) (app : App) :
  Forall edits es → browser (steps es app) = browser app.
Proof.
  revert app. induction es as [|e es IH]; intros app Hes; [done|].
  inversion Hes as [|? ? He Hrest]; subst. simpl.
  rewrite IH by done. by apply step_edit_browser.
Qed.

Lemma with_page_1 (st : State) :
  page st = 1 →
  {| query := query st; field := field st; ebookOnly := ebookOnly st; lang := lang st;
     sort := sort st; books := books st; total := total st; page := 1;
     loading := loading st; error := error st; selected := selected st;
     saved := saved st |} = st.
Proof. intros <-. by destruct st. Qed.

Lemma with_page_same (st : State) (p : Z) :
  p = page st →
  {| query := query st; field := field st; ebookOnly := ebookOnly st; lang := lang st;
     sort := sort st; books := books st; total := total st; page := p;
     loading := loading st; error := error st; selected := selected st;
     saved := saved st |} = st.
Proof. intros ->. by destruct st. Qed.





(** X27. Edits alone make no request and leave the store alone, however
    many they are; when the timer then fires, at most one request is made, for
    the URL of the state then shown; and a second firing does nothing. *)
Theorem burst_gives_one_request (es : list event) (app : App) :
  timer_current app → Forall edits es →
  browser (steps es app) = browser app
  ∧ (requests (browser (step TimerFires (steps es app))) = requests (browser app)
     ∨ requests (browser (step TimerFires (steps es app)))
       = requests (browser app) ++ [buildUrl (shown (steps es app))])
  ∧ step TimerFires (step TimerFires (steps es app)) = step TimerFires (steps es app).
Proof.
  intros Hcur Hes. pose proof (steps_edit_browser es app Hes) as Hbrowser.
  pose proof (steps_timer_current es app Hcur) as Hcur'.
  split; [done|]. destruct (timer (steps es app)) as [r|] eqn:Htimer.
  - destruct (debounced_run (shown (steps es app)) (browser (steps es app)))
      as (st' & w' & Hrun & Hsame & _ & Hblank & Hreq).
    rewrite (step_timer_some _ _ Hcur' Htimer st' w' Hrun Hsame). simpl. split.
    + destruct (decide (trim (query (shown (steps es app))) = "")) as [Hq|Hq].
      * left. by rewrite (Hblank Hq), Hbrowser.
      * right. destruct (Hreq Hq) as (_ & -> & _). by rewrite Hbrowser.
    + by apply step_timer_none.
  - rewrite (step_timer_none _ Htimer). split; [left; by rewrite Hbrowser|].
    by apply step_timer_none.
Qed.

Lemma burst_gives_one_request_witness :
  browser (steps [TypeQuery "d"; TypeQuery "du"; TypeQuery "dune"; PickField "title"]
             {| shown := paging 0 1; browser := world (empty_store 0) [found [hobbit] 1];
                timer := None |})
  = world (empty_store 0) [found [hobbit] 1]
  ∧ requests
      (browser (step TimerFires
                  (steps [TypeQuery "d"; TypeQuery "du"; TypeQuery "dune"; PickField "title"]
                     {| shown := paging 0 1; browser := world (empty_store 0) [found [hobbit] 1];
                        timer := None |})))
    = ["https://openlibrary.org/search.json?page=1&title=dune&fields=key%2Ctitle%2Cauthor_name%2Ccover_i%2Cfirst_publish_year%2Cebook_access%2Chas_fulltext%2Clanguage%2Cedition_count%2Csubject"].
Proof.
  destruct (burst_gives_one_request
              [TypeQuery "d"; TypeQuery "du"; TypeQuery "dune"; PickField "title"]
              {| shown := paging 0 1; browser := world (empty_store 0) [found [hobbit] 1];
                 timer := None |})
    as (Hbrowser & _ & _); [by intros r [=]|repeat constructor|].
  split; [exact Hbrowser|]. vm_compute. reflexivity.
Defined.

(** X28. Neither the Enter key nor the Search button clears the pending
    timer. With a timer pending and a query that is not blank, pressing Enter
    makes the request at once, and the timer makes the same request again when
    it fires; so does a click on the Search button when the loading flag is
    false. While the flag is true the button is disabled and a click on it
    changes nothing. *)
Theorem search_then_timer_requests_twice (app : App) (r : State) :
  timer_current app → timer app = Some r → trim (query (shown app)) ≠ "" →
  requests (browser (step TimerFires (step PressEnter app)))
  = requests (browser app) ++ [buildUrl (shown app); buildUrl (shown app)]
  ∧ (loading (shown app) = false →
     requests (browser (step TimerFires (step ClickSearch app)))
     = requests (browser app) ++ [buildUrl (shown app); buildUrl (shown app)])
  ∧ (loading (shown app) = true → step ClickSearch app = app).
Proof.
  intros Hcur Hr Hq.
  assert (requests (browser (step TimerFires (step PressEnter app)))
          = requests (browser app) ++ [buildUrl (shown app); buildUrl (shown app)]) as Henter.
  { destruct (step_enter app) as (st1 & _ & Hsame1 & ->).
    pose proof (same_but_results_deps _ _ Hsame1) as Hdeps1.
    set (w1 := after_request (buildUrl (shown app)) (browser app)).
    destruct (debounced_run st1 w1) as (st2 & w2 & Hrun & Hsame2 & _ & _ & Hreq).
    assert (query st1 = query (shown app)) as Hquery by apply Hsame1.
    destruct Hreq as (_ & Hrequests & _); [by rewrite Hquery|].
    assert (timer_current {| shown := st1; browser := w1; timer := timer app |}) as Hcur1.
    { intros r' Hr'. simpl in *. rewrite Hdeps1. by apply Hcur. }
    rewrite (step_timer_some _ r Hcur1 Hr st2 w2 Hrun Hsame2).
    simpl. rewrite Hrequests. unfold w1. simpl.
    rewrite (buildUrl_same_request st1 (shown app)).
    - by rewrite <- app_assoc.
    - destruct Hsame1 as (? & ? & ? & ? & _ & ? & _). by repeat split. }
  destruct (step_click_search app) as [Henabled Hdisabled].
  split; [done|]. split; [|done].
  intros Hload. by rewrite (Henabled Hload).
Qed.

Lemma search_then_timer_requests_twice_witness :
  requests
    (browser (step TimerFires
                (step PressEnter
                   {| shown := sorting "relevance";
                      browser := world (empty_store 0) [found [hobbit] 1; found [hobbit] 1];
                      timer := Some (sorting "relevance") |})))
  = [buildUrl (sorting "relevance"); buildUrl (sorting "relevance")]
  ∧ requests
      (browser (step TimerFires
                  (step ClickSearch
                     {| shown := sorting "relevance";
                        browser := world (empty_store 0) [found [hobbit] 1; found [hobbit] 1];
                        timer := Some (sorting "relevance") |})))
    = [buildUrl (sorting "relevance"); buildUrl (sorting "relevance")].
Proof.
  destruct (search_then_timer_requests_twice
              {| shown := sorting "relevance";
                 browser := world (empty_store 0) [found [hobbit] 1; found [hobbit] 1];
                 timer := Some (sorting "relevance") |} (sorting "relevance"))
    as (Henter & Hclick & _).
  - intros r [= <-]. reflexivity.
  - reflexivity.
  - vm_compute. discriminate.
  - split; [exact Henter|]. by apply Hclick.
Defined.

Lemma step_page (e : event) (app : App) (p : Z) :
  e = ClickNext ∧ p = nextPage (totalPages (shown app)) (page (shown app))
  ∨ e = ClickPrev ∧ p = prevPage (page (shown app)) →
  (p = page (shown app) → step e app = app)
  ∧ (p ≠ page (shown app) →
     page (shown (step e app)) = p
     ∧ timer (step e app) = Some (shown (step e app))
     ∧ browser (step e app) = browser app
     ∧ reset_deps (shown (step e app)) = reset_deps (shown app)).
Proof.
  intros [[-> ->]|[-> ->]]; (split; intros Hp).
  - unfold step. simpl. rewrite with_page_same by done.
    rewrite commit_same_deps by done. by destruct app.
  - unfold step, commit. simpl.
    rewrite (decide_True (P := reset_deps _ = reset_deps _)) by done.
    rewrite (decide_False (P := search_deps _ = search_deps _))
      by (unfold search_deps; simpl; intros Heq; injection Heq; congruence).
    done.
  - unfold step. simpl. rewrite with_page_same by done.
    rewrite commit_same_deps by done. by destruct app.
  - unfold step, commit. simpl.
    rewrite (decide_True (P := reset_deps _ = reset_deps _)) by done.
    rewrite (decide_False (P := search_deps _ = search_deps _))
      by (unfold search_deps; simpl; intros Heq; injection Heq; congruence).
    done.
Qed.

(** X29. Turning the page does not send the component back to page 1: within
    the pages, Next and Prev move by one page and leave a timer pending for the
    new page, with the controls as they were and no request made; on the first
    page Prev changes nothing, and on the last page Next changes nothing, not
    even the timer. *)
Theorem turning_the_page (app : App) :
  (1 ≤ page (shown app) < totalPages (shown app) →
   page (shown (step ClickNext app)) = page (shown app) + 1
   ∧ timer (step ClickNext app) = Some (shown (step ClickNext app))
   ∧ browser (step ClickNext app) = browser app
   ∧ reset_deps (shown (step ClickNext app)) = reset_deps (shown app))
  ∧ (1 < page (shown app) →
     page (shown (step ClickPrev app)) = page (shown app) - 1
     ∧ timer (step ClickPrev app) = Some (shown (step ClickPrev app))
     ∧ browser (step ClickPrev app) = browser app
     ∧ reset_deps (shown (step ClickPrev app)) = reset_deps (shown app))
  ∧ (page (shown app) = 1 → step ClickPrev app = app)
  ∧ (page (shown app) = totalPages (shown app) → step ClickNext app = app).
Proof.
  split; [|split; [|split]]; intros Hp.
  - destruct (step_page ClickNext app _ (or_introl (conj eq_refl eq_refl))) as [_ Hmove].
    unfold nextPage in Hmove. rewrite Z.min_r in Hmove by lia. apply Hmove. lia.
  - destruct (step_page ClickPrev app _ (or_intror (conj eq_refl eq_refl))) as [_ Hmove].
    unfold prevPage in Hmove. rewrite Z.max_r in Hmove by lia. apply Hmove. lia.
  - destruct (step_page ClickPrev app _ (or_intror (conj eq_refl eq_refl))) as [Hstay _].
    apply Hstay. unfold prevPage. lia.
  - destruct (step_page ClickNext app _ (or_introl (conj eq_refl eq_refl))) as [Hstay _].
    apply Hstay. unfold nextPage. lia.
Qed.

Lemma turning_the_page_witness :
  page (shown (step ClickNext
                 {| shown := paging 100 2; browser := world (empty_store 0) [];
                    timer := None |})) = 3
  ∧ step ClickPrev {| shown := paging 100 1; browser := world (empty_store 0) [];
                      timer := None |}
    = {| shown := paging 100 1; browser := world (empty_store 0) []; timer := None |}.
Proof.
  destruct (turning_the_page {| shown := paging 100 2; browser := world (empty_store 0) [];
                                timer := None |}) as (Hnext & _).
  destruct (turning_the_page {| shown := paging 100 1; browser := world (empty_store 0) [];
                                timer := None |}) as (_ & _ & Hfirst & _).
  split.
  - destruct Hnext as [Hpage _]; [by vm_compute|]. exact Hpage.
  - by apply Hfirst.
Defined.

End EventFacts.
